(** * HD key store (src/wallet/hdkeystore.{h,cpp}): a shallow embedding

    The store [CHDKeyStore] keeps four [std::map]s (plain master seeds,
    crypted master seeds, the catalog of HD public keys and the chain
    registry) on top of the crypto key store it inherits from.  The
    embedding keeps the maps as finite maps, threads the store through
    every member function, and distinguishes the three ways a member
    function can end: by [return], by a thrown [std::runtime_error], or
    by reading outside a container. *)

From Stdlib Require Import ZArith Ascii String DecimalString.
From Stdlib.Strings Require Import Byte.
From stdpp Require Import gmap strings list sorting.

Local Open Scope Z_scope.
Local Open Scope string_scope.

(** ** Ways a member function ends *)

Inductive exit (A : Type) : Type :=
| Normal (a : A)            (* [return a;] *)
| Throw (what : string)     (* [throw std::runtime_error(what);] *)
| OutOfBounds.              (* a read outside the bounds of a container *)
Arguments Normal {A} a.
Arguments Throw {A} what.
Arguments OutOfBounds {A}.

(** A computation over a mutable state [S]: the way it ends, and the
    state at that point. *)
Definition M (S A : Type) : Type := S -> exit A * S.

Definition ret {S A} (a : A) : M S A := fun s => (Normal a, s).

Definition bind {S A B} (m : M S A) (f : A -> M S B) : M S B :=
  fun s =>
    match m s with
    | (Normal a, s') => f a s'
    | (Throw w, s') => (Throw w, s')
    | (OutOfBounds, s') => (OutOfBounds, s')
    end.

Definition gets {S A} (f : S -> A) : M S A := fun s => (Normal (f s), s).
Definition modify {S} (f : S -> S) : M S unit := fun s => (Normal tt, f s).
Definition throw {S A} (what : string) : M S A := fun s => (Throw what, s).
Definition out_of_bounds {S A} : M S A := fun s => (OutOfBounds, s).

(** A member function of an object held in a component of the state. *)
Definition zoom {S T A} (get : S -> T) (set : T -> S -> S) (m : M T A) : M S A :=
  fun s => let (r, t) := m (get s) in (r, set t s).

Notation "x <- m ;; k" := (bind m (fun x => k))
  (at level 100, m at next level, right associativity,
   format "'[v' x  <-  m  ;;  '/' k ']'").
Notation "m ;;; k" := (bind m (fun _ => k))
  (at level 100, right associativity).

(** ** Strings *)

(** [*s.rbegin()]: the last character; reading it from an empty string is
    a read before the start of the buffer. *)
Fixpoint back (s : string) : option ascii :=
  match s with
  | EmptyString => None
  | String c EmptyString => Some c
  | String _ s' => back s'
  end.

(** [s.substr(0, s.size()-1)] for a non-empty [s]. *)
Fixpoint pop_back (s : string) : string :=
  match s with
  | EmptyString => EmptyString
  | String _ EmptyString => EmptyString
  | String c s' => String c (pop_back s')
  end.

(** [boost::split(out, s, boost::is_any_of(sep))] with a one-character
    separator set and the default [token_compress_off]: one fragment per
    separator plus one, empty fragments kept; the empty input gives one
    empty fragment. *)
Fixpoint split (sep : ascii) (s : string) : list string :=
  match s with
  | EmptyString => [EmptyString]
  | String c s' =>
      if Ascii.eqb c sep then EmptyString :: split sep s'
      else match split sep s' with
           | frag :: frags => String c frag :: frags
           | [] => [String c EmptyString]
           end
  end.

(** [boost::replace_all(input, search, format)]: scanning from the left,
    each occurrence of [search] is replaced by [format]; the scan resumes
    behind the occurrence, and the inserted text is not scanned again.
    [skip] counts the characters of a matched occurrence still to drop. *)
Fixpoint replace_all_from (skip : nat) (input search format : string) : string :=
  match input with
  | EmptyString => EmptyString
  | String c rest =>
      match skip with
      | S k => replace_all_from k rest search format
      | O =>
          if String.prefix search input
          then format ++ replace_all_from (String.length search - 1) rest search format
          else String c (replace_all_from O rest search format)
      end
  end.

Definition replace_all (input search format : string) : string :=
  match search with
  | EmptyString => input
  | _ => replace_all_from O input search format
  end.

(** Modelled from the spec: [itostr] (utilstrencodings.h) is not part of
    these files.  The spec writes the chain switch as ["0"] / ["1"] and
    the child index as [<nIndex>]: the decimal rendering of an [int]. *)
Definition itostr (n : Z) : string := NilZero.string_of_int (Z.to_int n).

(** Conversions between the integer types of the source. *)
Definition to_uint32 (n : Z) : Z := n mod 2 ^ 32.
Definition to_int32 (n : Z) : Z := (n + 2 ^ 31) mod 2 ^ 32 - 2 ^ 31.
Definition bool_to_int (b : bool) : Z := if b then 1 else 0.

(** [for (unsigned int i = from; i < from + count; i++) if (...) return r;]
    with [count] in binary, so that a loop over 2^31 indices is run only
    as far as it gets: [inl r] when the body returned [r], [inr i] when
    the loop ran to its end, at index [i]. *)
Fixpoint for_upto {R : Type} (count : positive) (body : Z -> option R) (i : Z) : R + Z :=
  match count with
  | xH => match body i with Some r => inl r | None => inr (i + 1) end
  | xO half =>
      match for_upto half body i with
      | inl r => inl r
      | inr i' => for_upto half body i'
      end
  | xI half =>
      match body i with
      | Some r => inl r
      | None =>
          match for_upto half body (i + 1) with
          | inl r => inl r
          | inr i' => for_upto half body i'
          end
      end
  end.

(** ** Types and functions the two files take from elsewhere *)

(** [typedef uint256 HDChainID;] and [CKeyID] (a [uint160]): numbers.
    The [std::map]s are ordered by them. *)
Abbreviation HDChainID := N (only parsing).
Abbreviation CKeyID := N (only parsing).

(** [CKeyingMaterial] and [std::vector<unsigned char>]: byte vectors. *)
Abbreviation CKeyingMaterial := (list Byte.byte) (only parsing).

(** Modelled from the spec: [BIP32_EXTKEY_SIZE] (pubkey.h) is not part of
    these files; the spec gives it as 74 bytes. *)
Definition BIP32_EXTKEY_SIZE : nat := 74.

(** pubkey.h, key.h, utilstrencodings.h and wallet/crypter.h: the key
    types with the member functions the store calls, the integer parser,
    and the crypto key store [CHDKeyStore] derives from. *)
Class Collaborators : Type := {
  CPubKey : Type;
  CPubKey_IsValid : CPubKey -> bool;
  CPubKey_GetID : CPubKey -> CKeyID;
  CExtPubKey : Type;
  CExtPubKey_pubkey : CExtPubKey -> CPubKey;
  (* [bool Derive(CExtPubKey& out, unsigned int nChild) const] *)
  CExtPubKey_Derive : CExtPubKey -> Z -> option CExtPubKey;
  CExtKey : Type;
  (* [CExtKey k;] *)
  CExtKey_default : CExtKey;
  (* [void Decode(const unsigned char code[74])] on a fresh key *)
  CExtKey_Decode : CKeyingMaterial -> CExtKey;
  (* [void SetMaster(const unsigned char* seed, unsigned int nSeedLen)]
     on a fresh key *)
  CExtKey_SetMaster : CKeyingMaterial -> CExtKey;
  (* [bool Derive(CExtKey& out, unsigned int nChild) const] with a fresh
     [out]: the value returned and [out] afterwards *)
  CExtKey_Derive : CExtKey -> Z -> bool * CExtKey;
  CExtKey_Neuter : CExtKey -> CExtPubKey;
  (* [bool ParseInt32(const std::string& str, int32_t* out)] *)
  ParseInt32 : string -> option Z;
  CCryptoKeyStore : Type;
  IsCrypted : CCryptoKeyStore -> bool;
  EncryptSeed : CCryptoKeyStore -> CKeyingMaterial -> HDChainID -> option (list Byte.byte);
  DecryptSeed : CCryptoKeyStore -> list Byte.byte -> HDChainID -> option CKeyingMaterial;
}.

(** Iteration over a [std::map] visits the entries in key order. *)
Definition key_le {V : Type} (a b : N * V) : Prop := (a.1 ≤ b.1)%N.
Global Instance key_le_dec {V : Type} : RelDecision (@key_le V) :=
  fun a b => N.le_dec a.1 b.1.
Definition entries {V : Type} (m : gmap N V) : list (N * V) :=
  merge_sort key_le (map_to_list m).

Section Store.
Context `{Collaborators}.

(** ** hdkeystore.h *)

Record CHDPubKey : Type := {
  nVersion : Z;
  pubkey : CPubKey;
  nChild : Z;                 (* unsigned int *)
  chainID : HDChainID;
  keypath : string;           (* example: m/44'/0'/0'/0/1 *)
  internal : bool;
}.

Record CHDChain : Type := {
  chain_nVersion : Z;
  usePubCKD : bool;
  nCreateTime : Z;
  chain_chainID : HDChainID;
  keypathTemplate : string;   (* example "m'/44'/0'/0'/c" *)
  externalPubKey : CExtPubKey;
  internalPubKey : CExtPubKey;
}.

Definition CHDPubKey_IsValid (k : CHDPubKey) : bool := CPubKey_IsValid (pubkey k).

Definition CHDChain_IsValid (c : CHDChain) : bool :=
  if usePubCKD c && negb (CPubKey_IsValid (CExtPubKey_pubkey (externalPubKey c)))
  then false
  else negb (String.eqb (keypathTemplate c) EmptyString).

(** [class CHDKeyStore : public CCryptoKeyStore]; [LOCK(cs_KeyStore)]
    serializes the member functions, which are modelled one at a time. *)
Record CHDKeyStore : Type := {
  base : CCryptoKeyStore;
  mapHDMasterSeeds : gmap N CKeyingMaterial;
  mapHDCryptedMasterSeeds : gmap N (list Byte.byte);
  mapHDPubKeys : gmap N CHDPubKey;
  mapChains : gmap N CHDChain;
}.

Definition set_mapHDMasterSeeds (f : gmap N CKeyingMaterial -> gmap N CKeyingMaterial)
    (s : CHDKeyStore) : CHDKeyStore :=
  {| base := base s;
     mapHDMasterSeeds := f (mapHDMasterSeeds s);
     mapHDCryptedMasterSeeds := mapHDCryptedMasterSeeds s;
     mapHDPubKeys := mapHDPubKeys s;
     mapChains := mapChains s |}.

Definition set_mapHDCryptedMasterSeeds (f : gmap N (list Byte.byte) -> gmap N (list Byte.byte))
    (s : CHDKeyStore) : CHDKeyStore :=
  {| base := base s;
     mapHDMasterSeeds := mapHDMasterSeeds s;
     mapHDCryptedMasterSeeds := f (mapHDCryptedMasterSeeds s);
     mapHDPubKeys := mapHDPubKeys s;
     mapChains := mapChains s |}.

Definition set_mapHDPubKeys (f : gmap N CHDPubKey -> gmap N CHDPubKey)
    (s : CHDKeyStore) : CHDKeyStore :=
  {| base := base s;
     mapHDMasterSeeds := mapHDMasterSeeds s;
     mapHDCryptedMasterSeeds := mapHDCryptedMasterSeeds s;
     mapHDPubKeys := f (mapHDPubKeys s);
     mapChains := mapChains s |}.

Definition set_mapChains (f : gmap N CHDChain -> gmap N CHDChain)
    (s : CHDKeyStore) : CHDKeyStore :=
  {| base := base s;
     mapHDMasterSeeds := mapHDMasterSeeds s;
     mapHDCryptedMasterSeeds := mapHDCryptedMasterSeeds s;
     mapHDPubKeys := mapHDPubKeys s;
     mapChains := f (mapChains s) |}.

(** ** hdkeystore.cpp: the seed vault *)

Definition AddCryptedMasterSeed (chainID : HDChainID) (vchCryptedSecret : list Byte.byte)
    : M CHDKeyStore bool :=
  modify (set_mapHDCryptedMasterSeeds <[chainID := vchCryptedSecret]>) ;;;
  ret true.

Definition AddMasterSeed (chainID : HDChainID) (masterSeed : CKeyingMaterial)
    : M CHDKeyStore bool :=
  crypted <- gets (fun s => IsCrypted (base s)) ;;
  if (crypted : bool) then
    wrapped <- gets (fun s => EncryptSeed (base s) masterSeed chainID) ;;
    match wrapped with
    | None => ret false
    | Some vchCryptedSecret =>
        modify (set_mapHDCryptedMasterSeeds <[chainID := vchCryptedSecret]>) ;;;
        ret true
    end
  else
    modify (set_mapHDMasterSeeds <[chainID := masterSeed]>) ;;;
    ret true.

(** [bool GetMasterSeed(chainID, seedOut) const]: [Some seed] stands for
    [true] with [seedOut = seed], [None] for [false]. *)
Definition GetMasterSeed (chainID : HDChainID) : M CHDKeyStore (option CKeyingMaterial) :=
  crypted <- gets (fun s => IsCrypted (base s)) ;;
  if negb crypted then
    it <- gets (fun s => mapHDMasterSeeds s !! chainID) ;;
    match it with
    | None => ret None
    | Some seed => ret (Some seed)
    end
  else
    it <- gets (fun s => mapHDCryptedMasterSeeds s !! chainID) ;;
    match it with
    | None => ret None
    | Some vchCryptedSecret =>
        plain <- gets (fun s => DecryptSeed (base s) vchCryptedSecret chainID) ;;
        match plain with
        | None => ret None
        | Some seed => ret (Some seed)
        end
    end.

(** The loop of [EncryptSeeds] over the entries of [mapHDMasterSeeds],
    which the loop itself does not change. *)
Fixpoint EncryptSeeds_loop (its : list (HDChainID * CKeyingMaterial)) : M CHDKeyStore bool :=
  match its with
  | [] =>
      modify (set_mapHDMasterSeeds (fun _ => ∅)) ;;;
      ret true
  | it :: rest =>
      wrapped <- gets (fun s => EncryptSeed (base s) it.2 it.1) ;;
      match wrapped with
      | None => ret false
      | Some vchCryptedSecret =>
          AddCryptedMasterSeed it.1 vchCryptedSecret ;;;
          EncryptSeeds_loop rest
      end
  end.

Definition EncryptSeeds : M CHDKeyStore bool :=
  its <- gets (fun s => entries (mapHDMasterSeeds s)) ;;
  EncryptSeeds_loop its.

Definition GetCryptedMasterSeed (chainID : HDChainID) : M CHDKeyStore (option (list Byte.byte)) :=
  crypted <- gets (fun s => IsCrypted (base s)) ;;
  if negb crypted then ret None
  else
    it <- gets (fun s => mapHDCryptedMasterSeeds s !! chainID) ;;
    match it with
    | None => ret None
    | Some vchCryptedSecret => ret (Some vchCryptedSecret)
    end.

(** ** The catalog and the chain registry *)

Definition LoadHDPubKey (hdPubKey : CHDPubKey) : M CHDKeyStore bool :=
  modify (set_mapHDPubKeys <[CPubKey_GetID (pubkey hdPubKey) := hdPubKey]>) ;;;
  ret true.

Definition AddChain (chain : CHDChain) : M CHDKeyStore bool :=
  modify (set_mapChains <[chain_chainID chain := chain]>) ;;;
  ret true.

Definition GetChain (chainID : HDChainID) : M CHDKeyStore (option CHDChain) :=
  it <- gets (fun s => mapChains s !! chainID) ;;
  match it with
  | None => ret None
  | Some chain => ret (Some chain)
  end.

(** ** The derivation engine *)

(** The body of the [BOOST_FOREACH] loop of [PrivKeyDer] and the code
    behind the loop; [parentKey] is the working key.  [Some key] stands
    for [true] with [extKeyOut = key], [None] for [false]. *)
Fixpoint PrivKeyDer_loop (pathFragments : list string) (chainID : HDChainID)
    (parentKey : CExtKey) : M CHDKeyStore (option CExtKey) :=
  match pathFragments with
  | [] => ret (Some parentKey)
  | fragment :: rest =>
      match back fragment with
      | None => out_of_bounds
      | Some last =>
          let harden := Ascii.eqb last "'" in
          let fragment := if harden then pop_back fragment else fragment in
          if String.eqb fragment "m" then
            got <- GetMasterSeed chainID ;;
            match got with
            | None => ret None
            | Some masterSeed =>
                (* [&masterSeed[0]] with [masterSeed.size()]: the bytes of
                   the seed *)
                let bip32MasterKey :=
                  if Nat.eqb (length masterSeed) BIP32_EXTKEY_SIZE
                  then CExtKey_Decode masterSeed
                  else CExtKey_SetMaster masterSeed in
                PrivKeyDer_loop rest chainID bip32MasterKey
            end
          else if String.eqb fragment "c" then ret None
          else
            match ParseInt32 fragment with
            | None => ret None
            | Some nIndex =>
                let childKey :=
                  (CExtKey_Derive parentKey
                     (to_uint32 ((if harden then 0x80000000 else 0) + nIndex))).2 in
                PrivKeyDer_loop rest chainID childKey
            end
      end
  end.

Definition PrivKeyDer (keypath : string) (chainID : HDChainID)
    : M CHDKeyStore (option CExtKey) :=
  PrivKeyDer_loop (split "/" keypath) chainID CExtKey_default.

(** ** Deriving the public key at an index *)

Definition set_keypath (f : string -> string) (o : CHDPubKey) : CHDPubKey :=
  {| nVersion := nVersion o; pubkey := pubkey o; nChild := nChild o;
     chainID := chainID o; keypath := f (keypath o); internal := internal o |}.

(** The four assignments at the end of [DeriveHDPubKeyAtIndex]. *)
Definition set_derived (childPubKey : CPubKey) (chain : HDChainID) (nIndex : Z)
    (isInternal : bool) (o : CHDPubKey) : CHDPubKey :=
  {| nVersion := nVersion o; pubkey := childPubKey; nChild := nIndex;
     chainID := chain; keypath := keypath o; internal := isInternal |}.

(** [DeriveHDPubKeyAtIndex] runs on the store and on the caller's
    [hdPubKeyOut], which it writes to before it knows whether it will
    succeed. *)
Definition on_store {A} (m : M CHDKeyStore A) : M (CHDKeyStore * CHDPubKey) A :=
  zoom fst (fun st s => (st, s.2)) m.
Definition on_out (f : CHDPubKey -> CHDPubKey) : M (CHDKeyStore * CHDPubKey) unit :=
  modify (fun s => (s.1, f s.2)).

Definition DeriveHDPubKeyAtIndex (chainID : HDChainID) (nIndex : Z) (internal : bool)
    : M (CHDKeyStore * CHDPubKey) bool :=
  found <- on_store (GetChain chainID) ;;
  match found with
  | None => ret false
  | Some hdChain =>
      if (0x80000000 <=? nIndex)%Z
      then throw "CHDKeyStore::DeriveHDPubKeyAtIndex(): No more available keys!"
      else
        on_out (set_keypath (fun _ => keypathTemplate hdChain)) ;;;
        on_out (set_keypath (fun k => replace_all k "c" (itostr (bool_to_int internal)))) ;;;
        if internal && negb (CPubKey_IsValid (CExtPubKey_pubkey (internalPubKey hdChain)))
           || negb (CPubKey_IsValid (CExtPubKey_pubkey (externalPubKey hdChain)))
        then
          on_out (set_keypath (fun k => k ++ "/" ++ itostr (to_int32 nIndex) ++ "'")) ;;;
          path <- gets (fun s => keypath s.2) ;;
          derived <- on_store (PrivKeyDer path chainID) ;;
          match derived with
          | None =>
              throw "CHDKeyStore::DeriveHDPubKeyAtIndex(): Private Key Derivation failed!"
          | Some extKeyOut =>
              let childKey := CExtKey_Neuter extKeyOut in
              on_out (set_derived (CExtPubKey_pubkey childKey) chainID nIndex internal) ;;;
              ret true
          end
        else
          on_out (set_keypath (fun k => k ++ "/" ++ itostr (to_int32 nIndex))) ;;;
          let useExtKey := if internal then internalPubKey hdChain else externalPubKey hdChain in
          match CExtPubKey_Derive useExtKey nIndex with
          | None => throw "CHDKeyStore::DeriveHDPubKeyAtIndex(): Key deriving failed!"
          | Some childKey =>
              on_out (set_derived (CExtPubKey_pubkey childKey) chainID nIndex internal) ;;;
              ret true
          end
  end.

(** ** The next unused child index *)

(** The indices [GetNextChildIndex] collects from the catalog. *)
Definition collect_indices (chain : HDChainID) (isInternal : bool)
    (pubkeys : gmap N CHDPubKey) : list Z :=
  nChild <$> filter (fun r => chainID r = chain ∧ internal r = isInternal)
                    ((entries pubkeys).*2).

Definition GetNextChildIndex (chainID : HDChainID) (internal : bool) : M CHDKeyStore Z :=
  vIndices <- gets (fun s => collect_indices chainID internal (mapHDPubKeys s)) ;;
  match for_upto 0x80000000%positive
          (fun i => if bool_decide (i ∈ vIndices) then None else Some i) 0 with
  | inl i => ret i
  | inr _ => ret 0
  end.

(** ** Notions the statements below are written in *)

(** No chain has an entry in both seed maps. *)
Definition seeds_disjoint (s : CHDKeyStore) : Prop :=
  dom (mapHDMasterSeeds s) ## dom (mapHDCryptedMasterSeeds s).

(** The catalog has a record of chain [chain] and side [isInternal] at
    child index [i]. *)
Definition index_used (s : CHDKeyStore) (chain : HDChainID) (isInternal : bool) (i : Z) : Prop :=
  ∃ keyID r, mapHDPubKeys s !! keyID = Some r
             ∧ chainID r = chain ∧ internal r = isInternal ∧ nChild r = i.

(** The keypath template with the chain switch filled in, as the spec
    words it: every [c] becomes ["0"] (external) or ["1"] (internal). *)
Fixpoint materialize (template : string) (isInternal : bool) : string :=
  match template with
  | EmptyString => EmptyString
  | String ch rest =>
      String (if Ascii.eqb ch "c" then (if isInternal then "1" else "0")%char else ch)
             (materialize rest isInternal)
  end.

(** Private derivation from the seed is used when the internal side is
    asked for without an internal root, or when there is no external
    root. *)
Definition derives_privately (hdChain : CHDChain) (isInternal : bool) : bool :=
  isInternal && negb (CPubKey_IsValid (CExtPubKey_pubkey (internalPubKey hdChain)))
  || negb (CPubKey_IsValid (CExtPubKey_pubkey (externalPubKey hdChain))).

(** The master key the engine builds from a seed. *)
Definition master_key (masterSeed : CKeyingMaterial) : CExtKey :=
  if Nat.eqb (length masterSeed) BIP32_EXTKEY_SIZE
  then CExtKey_Decode masterSeed
  else CExtKey_SetMaster masterSeed.

(** A caller adding master seeds one after the other; [true] when every
    call returned [true]. *)
Fixpoint AddMasterSeeds (pairs : list (HDChainID * CKeyingMaterial)) : M CHDKeyStore bool :=
  match pairs with
  | [] => ret true
  | ins :: rest =>
      ok <- AddMasterSeed ins.1 ins.2 ;;
      oks <- AddMasterSeeds rest ;;
      ret (ok && oks)
  end.

(** The seed of the last pair for [chain] in a sequence of insertions. *)
Fixpoint last_inserted (chain : HDChainID) (pairs : list (HDChainID * CKeyingMaterial))
    : option CKeyingMaterial :=
  match pairs with
  | [] => None
  | ins :: rest =>
      match last_inserted chain rest with
      | Some seed => Some seed
      | None => if N.eqb ins.1 chain then Some ins.2 else None
      end
  end.

End Store.

(** ** The rest of the façade: keys by id, chain ids, defaults *)

(** key.h and keystore.h: the private key type, the [key] member of
    [CExtKey], and the lookups of the crypto key store the façade falls
    back on. *)
Class BaseKeyStore `{Collaborators} : Type := {
  CKey : Type;
  CExtKey_key : CExtKey -> CKey;
  (* [bool HaveKey(const CKeyID&) const] *)
  CCryptoKeyStore_HaveKey : CCryptoKeyStore -> CKeyID -> bool;
  (* [bool GetKey(const CKeyID&, CKey& keyOut) const] *)
  CCryptoKeyStore_GetKey : CCryptoKeyStore -> CKeyID -> option CKey;
  (* [bool GetPubKey(const CKeyID&, CPubKey& vchPubKeyOut) const] *)
  CCryptoKeyStore_GetPubKey : CCryptoKeyStore -> CKeyID -> option CPubKey;
}.

Section Facade.
Context `{BaseKeyStore}.

(** [CHDPubKey::SetNull] and [CHDChain::SetNull]; the members they do
    not assign keep what they hold. *)
Definition CHDPubKey_SetNull (o : CHDPubKey) : CHDPubKey :=
  {| nVersion := 1; pubkey := pubkey o; nChild := nChild o;
     chainID := 0%N; keypath := EmptyString; internal := internal o |}.

Definition CHDChain_SetNull (c : CHDChain) : CHDChain :=
  {| chain_nVersion := 1; usePubCKD := false; nCreateTime := 0;
     chain_chainID := 0%N; keypathTemplate := EmptyString;
     externalPubKey := externalPubKey c; internalPubKey := internalPubKey c |}.

Definition HaveKey (address : CKeyID) : M CHDKeyStore bool :=
  found <- gets (fun s => mapHDPubKeys s !! address) ;;
  match found with
  | Some _ => ret true
  | None => gets (fun s => CCryptoKeyStore_HaveKey (base s) address)
  end.

(** [bool GetAvailableChainIDs(std::vector<HDChainID>& chainIDs)]
    always returns [true]; the result is [chainIDs] afterwards, which
    the function clears first. *)
Definition GetAvailableChainIDs : M CHDKeyStore (list HDChainID) :=
  crypted <- gets (fun s => IsCrypted (base s)) ;;
  if (crypted : bool)
  then gets (fun s => (entries (mapHDCryptedMasterSeeds s)).*1)
  else gets (fun s => (entries (mapHDMasterSeeds s)).*1).

(** [bool DeriveKey(const CHDPubKey hdPubKey, CKey& keyOut) const] *)
Definition DeriveKey (hdPubKey : CHDPubKey) : M CHDKeyStore (option CKey) :=
  derived <- PrivKeyDer (keypath hdPubKey) (chainID hdPubKey) ;;
  match derived with
  | None => ret None
  | Some extKeyOut => ret (Some (CExtKey_key extKeyOut))
  end.

Definition GetKey (address : CKeyID) : M CHDKeyStore (option CKey) :=
  mi <- gets (fun s => mapHDPubKeys s !! address) ;;
  match mi with
  | Some hdPubKey =>
      derived <- DeriveKey hdPubKey ;;
      match derived with
      | None => ret None
      | Some keyOut => ret (Some keyOut)
      end
  | None => gets (fun s => CCryptoKeyStore_GetKey (base s) address)
  end.

Definition GetPubKey (address : CKeyID) : M CHDKeyStore (option CPubKey) :=
  mi <- gets (fun s => mapHDPubKeys s !! address) ;;
  match mi with
  | Some hdPubKey => ret (Some (pubkey hdPubKey))
  | None => gets (fun s => CCryptoKeyStore_GetPubKey (base s) address)
  end.

(** The store after member functions of the crypto key store below
    ([SetCrypted], [Unlock], [Lock]) have changed that key store. *)
Definition with_base (b : CCryptoKeyStore) (s : CHDKeyStore) : CHDKeyStore :=
  {| base := b;
     mapHDMasterSeeds := mapHDMasterSeeds s;
     mapHDCryptedMasterSeeds := mapHDCryptedMasterSeeds s;
     mapHDPubKeys := mapHDPubKeys s;
     mapChains := mapChains s |}.

(** The child index the walk derives at for a segment that is neither
    [m] nor [c]: the parsed number plus 2^31 under the hardened marker,
    as an [unsigned int]. *)
Definition segment_index (fragment : string) : option Z :=
  match back fragment with
  | None => None
  | Some last =>
      let harden := Ascii.eqb last "'" in
      let body := if harden then pop_back fragment else fragment in
      if String.eqb body "m" || String.eqb body "c" then None
      else match ParseInt32 body with
           | Some nIndex => Some (to_uint32 ((if harden then 0x80000000 else 0) + nIndex))
           | None => None
           end
  end.

(** Every chain of the registry is filed under its own [chainID] and
    every record of the catalog under the id of its public key. *)
Definition store_keyed (s : CHDKeyStore) : Prop :=
  (∀ id chain, mapChains s !! id = Some chain → chain_chainID chain = id)
  ∧ (∀ id r, mapHDPubKeys s !! id = Some r → CPubKey_GetID (pubkey r) = id).

(** A string without the letter [c]. *)
Fixpoint no_switch (s : string) : bool :=
  match s with
  | EmptyString => true
  | String ch rest => negb (Ascii.eqb ch "c") && no_switch rest
  end.

End Facade.

(** ** A small instance of the collaborators

    Keys are kept symbolically, as the derivation that leads to them; the
    crypto key store wraps a seed by putting its one-byte master key in
    front.  The instance makes the store executable on concrete inputs. *)
Module Demo.

Inductive demo_key : Type :=
| Blank
| Decoded (code : list Byte.byte)
| FromSeed (seed : list Byte.byte)
| Child (parent : demo_key) (nChild : Z).

Definition demo_valid (k : demo_key) : bool :=
  match k with Blank => false | _ => true end.

Fixpoint demo_id (k : demo_key) : N :=
  match k with
  | Blank => 0
  | Decoded _ => 1
  | FromSeed _ => 2
  | Child parent n => 3 + 2 ^ 32 * demo_id parent + Z.to_N n
  end%N.

Definition demo_derive (k : demo_key) (n : Z) : bool * demo_key :=
  if demo_valid k then (true, Child k n) else (false, Blank).

(** Public derivation has no hardened children. *)
Definition demo_derive_pub (k : demo_key) (n : Z) : option demo_key :=
  if demo_valid k && (n <? 0x80000000)%Z then Some (Child k n) else None.

Fixpoint demo_digits (s : string) (acc : Z) : option Z :=
  match s with
  | EmptyString => Some acc
  | String c s' =>
      let d := Z.of_nat (nat_of_ascii c) - 48 in
      if (0 <=? d)%Z && (d <=? 9)%Z then demo_digits s' (10 * acc + d) else None
  end.

(** Decimal digits with an optional minus sign, within [int32_t]. *)
Definition demo_ParseInt32 (s : string) : option Z :=
  let parsed :=
    match s with
    | EmptyString => None
    | String "-" EmptyString => None
    | String "-" s' => Z.opp <$> demo_digits s' 0
    | _ => demo_digits s 0
    end in
  match parsed with
  | Some n => if (- 2 ^ 31 <=? n)%Z && (n <? 2 ^ 31)%Z then Some n else None
  | None => None
  end.

Record demo_crypto : Type := {
  fUseCrypto : bool;
  vMasterKey : option Byte.byte;   (* [None]: locked *)
}.

Definition demo_encrypt (b : demo_crypto) (seed : list Byte.byte) (chainID : N)
    : option (list Byte.byte) :=
  match vMasterKey b, seed with
  | Some k, _ :: _ => Some (k :: seed)
  | _, _ => None          (* locked, or nothing to wrap *)
  end.

Definition demo_decrypt (b : demo_crypto) (blob : list Byte.byte) (chainID : N)
    : option (list Byte.byte) :=
  match vMasterKey b, blob with
  | Some k, k' :: seed => if Byte.eqb k k' then Some seed else None
  | _, _ => None
  end.

#[export] Instance demo : Collaborators := {|
  CPubKey := demo_key;
  CPubKey_IsValid := demo_valid;
  CPubKey_GetID := demo_id;
  CExtPubKey := demo_key;
  CExtPubKey_pubkey := fun k => k;
  CExtPubKey_Derive := demo_derive_pub;
  CExtKey := demo_key;
  CExtKey_default := Blank;
  CExtKey_Decode := Decoded;
  CExtKey_SetMaster := FromSeed;
  CExtKey_Derive := demo_derive;
  CExtKey_Neuter := fun k => k;
  ParseInt32 := demo_ParseInt32;
  CCryptoKeyStore := demo_crypto;
  IsCrypted := fUseCrypto;
  EncryptSeed := demo_encrypt;
  DecryptSeed := demo_decrypt;
|}.

(** The master seed of BIP32 test vector 1. *)
Definition seed16 : list Byte.byte :=
  [Byte.x00; Byte.x01; Byte.x02; Byte.x03; Byte.x04; Byte.x05; Byte.x06; Byte.x07;
   Byte.x08; Byte.x09; Byte.x0a; Byte.x0b; Byte.x0c; Byte.x0d; Byte.x0e; Byte.x0f].

Definition master : demo_key := FromSeed seed16.
Definition account : demo_key := Child master 0x80000000.   (* m/0' *)

(** Chain 1: template ["m/0'/c"], both roots stored. *)
Definition chain1 : CHDChain :=
  {| chain_nVersion := 1; usePubCKD := true; nCreateTime := 0; chain_chainID := 1%N;
     keypathTemplate := "m/0'/c";
     externalPubKey := Child account 0; internalPubKey := Child account 1 |}.

(** Chain 2: a template without the chain switch, no internal root. *)
Definition chain2 : CHDChain :=
  {| chain_nVersion := 1; usePubCKD := true; nCreateTime := 0; chain_chainID := 2%N;
     keypathTemplate := "m/44'/0'/0'";
     externalPubKey := Child (Child (Child master 0x8000002c) 0x80000000) 0x80000000;
     internalPubKey := Blank |}.

(** Chain 3: no stored roots. *)
Definition chain3 : CHDChain :=
  {| chain_nVersion := 1; usePubCKD := false; nCreateTime := 0; chain_chainID := 3%N;
     keypathTemplate := "m/0'/c";
     externalPubKey := Blank; internalPubKey := Blank |}.

Definition empty_store (b : demo_crypto) : CHDKeyStore :=
  {| base := b; mapHDMasterSeeds := ∅; mapHDCryptedMasterSeeds := ∅;
     mapHDPubKeys := ∅; mapChains := ∅ |}.

Definition plain_crypto : demo_crypto := {| fUseCrypto := false; vMasterKey := None |}.
Definition unlocked_crypto : demo_crypto :=
  {| fUseCrypto := true; vMasterKey := Some Byte.x2a |}.
(** A key store that can wrap seeds while [IsCrypted()] is still false. *)
Definition keyed_crypto : demo_crypto :=
  {| fUseCrypto := false; vMasterKey := Some Byte.x2a |}.

(** The store after the chains and the seeds of chains 1 and 3 are added. *)
Definition setup : M CHDKeyStore bool :=
  AddChain chain1 ;;; AddChain chain2 ;;; AddChain chain3 ;;;
  AddMasterSeed 1%N seed16 ;;; AddMasterSeed 3%N seed16.

Definition store (b : demo_crypto) : CHDKeyStore := (setup (empty_store b)).2.

Definition null_pubkey : CHDPubKey :=
  {| nVersion := 1; pubkey := Blank; nChild := 0; chainID := 0%N;
     keypath := EmptyString; internal := false |}.

(** A catalog record of chain 1 at an index of the external chain. *)
Definition record_at (n : Z) : CHDPubKey :=
  {| nVersion := 1; pubkey := Child (Child account 0) n; nChild := n; chainID := 1%N;
     keypath := "m/0'/0/" ++ itostr n; internal := false |}.

Fixpoint load_all (records : list CHDPubKey) : M CHDKeyStore bool :=
  match records with
  | [] => ret true
  | r :: rest => LoadHDPubKey r ;;; load_all rest
  end.

Definition catalog (indices : list Z) : CHDKeyStore :=
  (load_all (record_at <$> indices) (store plain_crypto)).2.

(** A plaintext store holding one seed, for chain 7. *)
Definition store_with_seed (seed : list Byte.byte) : CHDKeyStore :=
  (AddMasterSeed 7%N seed (empty_store plain_crypto)).2.

Definition zeros (n : nat) : list Byte.byte := replicate n Byte.x00.

(** A store whose key store can wrap seeds, with a seed it can wrap for
    chain 1 and one it cannot for chain 2. *)
Definition store_half_wrappable : CHDKeyStore :=
  (AddMasterSeed 2%N [] (AddMasterSeed 1%N seed16 (empty_store keyed_crypto)).2).2.

(** The plaintext store once the key store below has switched to
    encryption and holds its master key: seeds still in the plain map,
    [IsCrypted()] true. *)
Definition store_to_encrypt : CHDKeyStore :=
  {| base := unlocked_crypto;
     mapHDMasterSeeds := mapHDMasterSeeds (store plain_crypto);
     mapHDCryptedMasterSeeds := mapHDCryptedMasterSeeds (store plain_crypto);
     mapHDPubKeys := mapHDPubKeys (store plain_crypto);
     mapChains := mapChains (store plain_crypto) |}.

(** The crypto key store of the instance holds one key that is not an
    HD key, under id 77. *)
#[export] Instance demo_base : BaseKeyStore := {|
  CKey := demo_key;
  CExtKey_key := fun k => k;
  CCryptoKeyStore_HaveKey := fun _ id => N.eqb id 77;
  CCryptoKeyStore_GetKey := fun _ id => if N.eqb id 77 then Some (Decoded [Byte.x4d]) else None;
  CCryptoKeyStore_GetPubKey := fun _ id => if N.eqb id 77 then Some (Decoded [Byte.x4d]) else None;
|}.

(** A record whose public key has id 77 as well, on a path of chain 1. *)
Definition record77 : CHDPubKey :=
  {| nVersion := 1; pubkey := Child Blank 74; nChild := 74; chainID := 1%N;
     keypath := "m/0'/0/74"; internal := false |}.

(** The same record on a chain the vault has no seed for. *)
Definition record77_no_seed : CHDPubKey :=
  {| nVersion := 1; pubkey := Child Blank 74; nChild := 74; chainID := 2%N;
     keypath := "m/0'/0/74"; internal := false |}.

Definition locked_crypto : demo_crypto := {| fUseCrypto := true; vMasterKey := None |}.

(** A record of the internal side of chain 1, at index 1. *)
Definition internal_record : CHDPubKey :=
  {| nVersion := 1; pubkey := Child (Child account 1) 1; nChild := 1; chainID := 1%N;
     keypath := "m/0'/1/1"; internal := true |}.

End Demo.

(** * Properties *)

Section Properties.
Context `{Collaborators}.
Local Open Scope Z_scope.

Implicit Types st : CHDKeyStore.

(** ** Reading a map in key order *)

Lemma elem_of_entries {V} (m : gmap N V) (k : N) (v : V) :
  (k, v) ∈ entries m ↔ m !! k = Some v.
Proof.
  unfold entries. rewrite merge_sort_Permutation.
  apply elem_of_map_to_list.
Qed.

Lemma NoDup_fst_entries {V} (m : gmap N V) : NoDup (entries m).*1.
Proof.
  unfold entries. rewrite merge_sort_Permutation.
  apply NoDup_fst_map_to_list.
Qed.

Lemma Sorted_entries {V} (m : gmap N V) : Sorted key_le (entries m).
Proof.
  unfold entries. apply Sorted_merge_sort.
  intros a b. unfold key_le. lia.
Qed.

(** ** The seed vault reads without writing *)

Lemma GetMasterSeed_eq chain st :
  GetMasterSeed chain st =
  (Normal (if IsCrypted (base st)
           then mapHDCryptedMasterSeeds st !! chain ≫= fun v => DecryptSeed (base st) v chain
           else mapHDMasterSeeds st !! chain), st).
Proof.
  unfold GetMasterSeed, bind, gets, ret. simpl.
  destruct (IsCrypted (base st)); simpl.
  - destruct (mapHDCryptedMasterSeeds st !! chain) as [v|]; simpl; [|reflexivity].
    destruct (DecryptSeed (base st) v chain); reflexivity.
  - destruct (mapHDMasterSeeds st !! chain); reflexivity.
Qed.

Lemma GetChain_eq chain st : GetChain chain st = (Normal (mapChains st !! chain), st).
Proof.
  unfold GetChain, bind, gets, ret. simpl.
  destruct (mapChains st !! chain); reflexivity.
Qed.

(** ** One step of the keypath walk *)

Lemma PrivKeyDer_loop_master rest chain parentKey st :
  PrivKeyDer_loop ("m" :: rest) chain parentKey st =
  match (GetMasterSeed chain st).1 with
  | Normal (Some masterSeed) => PrivKeyDer_loop rest chain (master_key masterSeed) st
  | _ => (Normal None, st)
  end.
Proof.
  cbn [PrivKeyDer_loop back]. simpl. unfold bind.
  rewrite GetMasterSeed_eq. simpl.
  destruct (if IsCrypted (base st) then _ else _); reflexivity.
Qed.

Lemma PrivKeyDer_loop_cons fragment rest chain parentKey st :
  PrivKeyDer_loop (fragment :: rest) chain parentKey st = (Normal None, st)
  ∨ PrivKeyDer_loop (fragment :: rest) chain parentKey st = (OutOfBounds, st)
  ∨ ∃ key, PrivKeyDer_loop (fragment :: rest) chain parentKey st
           = PrivKeyDer_loop rest chain key st.
Proof.
  cbn [PrivKeyDer_loop].
  destruct (back fragment) as [last|]; [|right; left; reflexivity].
  cbv zeta.
  destruct (String.eqb _ "m").
  - unfold bind. rewrite GetMasterSeed_eq.
    destruct (if IsCrypted (base st) then _ else _) as [seed|].
    + right; right. eexists. reflexivity.
    + left. reflexivity.
  - destruct (String.eqb _ "c"); [left; reflexivity|].
    destruct (ParseInt32 _) as [nIndex|]; [|left; reflexivity].
    right; right. eexists. reflexivity.
Qed.

Lemma PrivKeyDer_loop_app pre post chain parentKey st :
  PrivKeyDer_loop (pre ++ post) chain parentKey st = (Normal None, st)
  ∨ PrivKeyDer_loop (pre ++ post) chain parentKey st = (OutOfBounds, st)
  ∨ ∃ key, PrivKeyDer_loop (pre ++ post) chain parentKey st
           = PrivKeyDer_loop post chain key st.
Proof.
  revert parentKey. induction pre as [|fragment pre IH]; intros parentKey.
  - right; right. exists parentKey. reflexivity.
  - rewrite <- app_comm_cons.
    destruct (PrivKeyDer_loop_cons fragment (pre ++ post) chain parentKey st)
      as [E|[E|[key E]]]; rewrite E; auto.
Qed.

(** The walk ends by [return] or at an out-of-bounds read, with the
    store as it found it. *)
Lemma PrivKeyDer_loop_frame pathFragments chain parentKey st :
  ∃ r, PrivKeyDer_loop pathFragments chain parentKey st = (r, st)
       ∧ ∀ what, r ≠ Throw what.
Proof.
  revert parentKey. induction pathFragments as [|fragment rest IH]; intros parentKey.
  - eexists. split; [reflexivity|]. discriminate.
  - destruct (PrivKeyDer_loop_cons fragment rest chain parentKey st)
      as [E|[E|[key E]]]; rewrite E.
    + eexists. split; [reflexivity|]. discriminate.
    + eexists. split; [reflexivity|]. discriminate.
    + apply IH.
Qed.

(** ** The derivation engine *)

(** C8: when the walk meets [m] and the vault hands out the master seed,
    the working key becomes the decoded seed if the seed is exactly
    [BIP32_EXTKEY_SIZE] = 74 bytes long and the BIP32 master key of the
    seed for every other length; nothing but the length decides. *)
Theorem PrivKeyDer_seed_by_length chain st masterSeed :
  (GetMasterSeed chain st).1 = Normal (Some masterSeed) →
  (∀ rest parentKey,
      PrivKeyDer_loop ("m" :: rest) chain parentKey st =
      PrivKeyDer_loop rest chain
        (if decide (length masterSeed = 74%nat)
         then CExtKey_Decode masterSeed else CExtKey_SetMaster masterSeed) st)
  ∧ (length masterSeed = 74%nat →
     PrivKeyDer "m" chain st = (Normal (Some (CExtKey_Decode masterSeed)), st))
  ∧ (length masterSeed ≠ 74%nat →
     PrivKeyDer "m" chain st = (Normal (Some (CExtKey_SetMaster masterSeed)), st)).
Proof.
  intros Hseed.
  assert (Hm : ∀ rest parentKey,
             PrivKeyDer_loop ("m" :: rest) chain parentKey st =
             PrivKeyDer_loop rest chain
               (if decide (length masterSeed = 74%nat)
                then CExtKey_Decode masterSeed else CExtKey_SetMaster masterSeed) st).
  { intros rest parentKey. rewrite PrivKeyDer_loop_master, Hseed.
    unfold master_key, BIP32_EXTKEY_SIZE.
    destruct (decide (length masterSeed = 74%nat)) as [E|E].
    - apply Nat.eqb_eq in E. rewrite E. reflexivity.
    - apply Nat.eqb_neq in E. rewrite E. reflexivity. }
  split; [exact Hm|].
  unfold PrivKeyDer. change (split "/" "m") with ["m"].
  split; intros E; rewrite Hm; destruct (decide _); try contradiction; reflexivity.
Qed.

(** C6, as the code has it: the walk returns [false] when it meets the
    segment [c] (also with the hardened marker), so no keypath with such
    a segment yields a key; it does not fail on [m] behind position 0:
    wherever [m] stands the walk fetches the master seed, fails only if
    the vault does not hand it out, and goes on from the master key, so
    that the outcome of a path [pre/m/post] is that of [m/post] unless
    the walk ended within [pre]. *)
Theorem PrivKeyDer_switch_and_master chain st :
  (∀ rest parentKey,
      PrivKeyDer_loop ("c" :: rest) chain parentKey st = (Normal None, st)
      ∧ PrivKeyDer_loop ("c'" :: rest) chain parentKey st = (Normal None, st))
  ∧ (∀ rest parentKey,
        PrivKeyDer_loop ("m" :: rest) chain parentKey st =
        match (GetMasterSeed chain st).1 with
        | Normal (Some masterSeed) => PrivKeyDer_loop rest chain (master_key masterSeed) st
        | _ => (Normal None, st)
        end)
  ∧ (∀ keypath pre post,
        split "/" keypath = (pre ++ "c" :: post)%list →
        PrivKeyDer keypath chain st = (Normal None, st)
        ∨ PrivKeyDer keypath chain st = (OutOfBounds, st))
  ∧ (∀ keypath pre post,
        split "/" keypath = (pre ++ "m" :: post)%list →
        PrivKeyDer keypath chain st = (Normal None, st)
        ∨ PrivKeyDer keypath chain st = (OutOfBounds, st)
        ∨ PrivKeyDer keypath chain st
          = PrivKeyDer_loop ("m" :: post) chain CExtKey_default st).
Proof.
  split; [intros; split; reflexivity|].
  split; [intros; apply PrivKeyDer_loop_master|].
  split; intros keypath pre post E; unfold PrivKeyDer; rewrite E.
  - destruct (PrivKeyDer_loop_app pre ("c" :: post) chain CExtKey_default st)
      as [R|[R|[key R]]]; rewrite R; auto.
  - destruct (PrivKeyDer_loop_app pre ("m" :: post) chain CExtKey_default st)
      as [R|[R|[key R]]]; rewrite R; auto.
Qed.

(** The walk of [pre ++ post] is the walk of [pre] followed, when that
    one yields a key, by the walk of [post] from that key. *)
Lemma PrivKeyDer_loop_app_eq pre post chain parentKey st :
  PrivKeyDer_loop (pre ++ post) chain parentKey st =
  match (PrivKeyDer_loop pre chain parentKey st).1 with
  | Normal (Some key) => PrivKeyDer_loop post chain key st
  | Normal None => (Normal None, st)
  | Throw what => (Throw what, st)
  | OutOfBounds => (OutOfBounds, st)
  end.
Proof.
  revert parentKey. induction pre as [|fragment pre IH]; intros parentKey.
  - reflexivity.
  - rewrite <- app_comm_cons. cbn [PrivKeyDer_loop].
    destruct (back fragment) as [last|]; [|reflexivity]. cbv zeta.
    destruct (String.eqb _ "m").
    + unfold bind. rewrite GetMasterSeed_eq.
      destruct (if IsCrypted (base st) then _ else _); [apply IH|reflexivity].
    + destruct (String.eqb _ "c"); [reflexivity|].
      destruct (ParseInt32 _); [apply IH|reflexivity].
Qed.

(** C10, as the code has it: the hardened-marker test reads the last
    character of the fragment, which an empty fragment does not have, so
    a walk that reaches an empty fragment ends there, out of bounds.  A
    keypath with an empty segment therefore never yields a key, but the
    read does not happen for every such keypath: the walk ends out of
    bounds at the empty fragment exactly when the segments before it are
    walked through (always so when the empty fragment is the first one),
    and when the walk of the segments before it returns [false], that is
    the outcome and the empty fragment is not read. *)
Theorem PrivKeyDer_empty_fragment keypath chain st :
  EmptyString ∈ split "/" keypath →
  (∀ rest parentKey,
      PrivKeyDer_loop (EmptyString :: rest) chain parentKey st = (OutOfBounds, st))
  ∧ (PrivKeyDer keypath chain st = (OutOfBounds, st)
     ∨ PrivKeyDer keypath chain st = (Normal None, st))
  ∧ (∀ rest, split "/" keypath = EmptyString :: rest →
             PrivKeyDer keypath chain st = (OutOfBounds, st))
  ∧ (∀ pre post,
        split "/" keypath = (pre ++ EmptyString :: post)%list →
        ((∃ key, (PrivKeyDer_loop pre chain CExtKey_default st).1 = Normal (Some key)) →
         PrivKeyDer keypath chain st = (OutOfBounds, st))
        ∧ ((PrivKeyDer_loop pre chain CExtKey_default st).1 = Normal None →
           PrivKeyDer keypath chain st = (Normal None, st))).
Proof.
  intros Hin.
  split; [reflexivity|]. split; [|split].
  - apply list_elem_of_split in Hin as (pre & post & E).
    unfold PrivKeyDer. rewrite E.
    destruct (PrivKeyDer_loop_app pre (EmptyString :: post) chain CExtKey_default st)
      as [R|[R|[key R]]]; rewrite R; auto.
  - intros rest E. unfold PrivKeyDer. rewrite E. reflexivity.
  - intros pre post E. unfold PrivKeyDer. rewrite E, PrivKeyDer_loop_app_eq.
    split.
    + intros [key ->]. reflexivity.
    + intros ->. reflexivity.
Qed.

(** ** The seed vault *)

Lemma AddMasterSeed_plain chain seed st :
  IsCrypted (base st) = false →
  AddMasterSeed chain seed st = (Normal true, set_mapHDMasterSeeds <[chain := seed]> st).
Proof.
  intros E. unfold AddMasterSeed, bind, gets, modify, ret. simpl.
  rewrite E. reflexivity.
Qed.

Lemma AddMasterSeed_crypted chain seed st :
  IsCrypted (base st) = true →
  AddMasterSeed chain seed st =
  match EncryptSeed (base st) seed chain with
  | Some blob => (Normal true, set_mapHDCryptedMasterSeeds <[chain := blob]> st)
  | None => (Normal false, st)
  end.
Proof.
  intros E. unfold AddMasterSeed, bind, gets, modify, ret. simpl.
  rewrite E. destruct (EncryptSeed _ _ _); reflexivity.
Qed.

Lemma lookup_foldl_insert (pairs : list (N * list byte)) (m : gmap N (list byte)) chain :
  foldl (fun acc ins => <[ins.1 := ins.2]> acc) m pairs !! chain =
  match last_inserted chain pairs with
  | Some seed => Some seed
  | None => m !! chain
  end.
Proof.
  revert m. induction pairs as [|[c s] rest IH]; intros m; [reflexivity|].
  cbn [foldl last_inserted]. rewrite IH.
  destruct (last_inserted chain rest); [reflexivity|].
  cbn [fst snd]. destruct (N.eqb_spec c chain) as [->|Hne].
  - apply lookup_insert_eq.
  - apply lookup_insert_ne, Hne.
Qed.

Lemma AddMasterSeeds_plain pairs st :
  IsCrypted (base st) = false →
  AddMasterSeeds pairs st =
  (Normal true,
   set_mapHDMasterSeeds (fun m => foldl (fun acc ins => <[ins.1 := ins.2]> acc) m pairs) st).
Proof.
  revert st. induction pairs as [|[c s] rest IH]; intros st E.
  - destruct st; reflexivity.
  - cbn [AddMasterSeeds]. unfold bind at 1. cbn [fst snd].
    rewrite AddMasterSeed_plain by exact E.
    unfold bind at 1. rewrite IH by exact E.
    destruct st; reflexivity.
Qed.

(** C7: in the Plaintext state every [AddMasterSeed] returns [true], and
    a [GetMasterSeed] that follows, still in the Plaintext state, returns
    for each chain exactly the seed inserted last for it. *)
Theorem AddMasterSeed_GetMasterSeed st pairs chain seed :
  IsCrypted (base st) = false →
  last_inserted chain pairs = Some seed →
  ∃ st', AddMasterSeeds pairs st = (Normal true, st')
         ∧ IsCrypted (base st') = false
         ∧ GetMasterSeed chain st' = (Normal (Some seed), st').
Proof.
  intros E Hlast. eexists. split; [apply AddMasterSeeds_plain, E|].
  split; [exact E|].
  rewrite GetMasterSeed_eq. cbn [base set_mapHDMasterSeeds mapHDMasterSeeds].
  rewrite E, lookup_foldl_insert, Hlast. reflexivity.
Qed.

Lemma EncryptSeeds_loop_cons it rest st :
  EncryptSeeds_loop (it :: rest) st =
  match EncryptSeed (base st) it.2 it.1 with
  | Some blob => EncryptSeeds_loop rest (set_mapHDCryptedMasterSeeds <[it.1 := blob]> st)
  | None => (Normal false, st)
  end.
Proof.
  cbn [EncryptSeeds_loop]. unfold bind, gets, AddCryptedMasterSeed, bind, modify, ret.
  destruct (EncryptSeed _ _ _); reflexivity.
Qed.

(** What the loop of [EncryptSeeds] leaves behind, whichever way it
    ends: the key store below and the other maps are untouched, the
    crypted map keeps the entries of the chains the loop does not visit,
    and the plain map is emptied on success and left alone on failure. *)
Lemma EncryptSeeds_loop_inv its st r st' :
  EncryptSeeds_loop its st = (r, st') →
  base st' = base st
  ∧ (r = Normal true ∧ mapHDMasterSeeds st' = ∅
     ∨ r = Normal false ∧ mapHDMasterSeeds st' = mapHDMasterSeeds st)
  ∧ (∀ chain, chain ∉ its.*1 →
       mapHDCryptedMasterSeeds st' !! chain = mapHDCryptedMasterSeeds st !! chain).
Proof.
  revert st. induction its as [|[c seed] rest IH]; intros st E.
  - cbn in E. injection E as <- <-. auto.
  - rewrite EncryptSeeds_loop_cons in E. cbn [fst snd] in E.
    destruct (EncryptSeed (base st) seed c) as [blob|].
    + apply IH in E as (Hb & Hr & Hc). cbn in Hb, Hr, Hc.
      split; [exact Hb|]. split; [exact Hr|].
      intros chain Hnot. cbn in Hnot. apply not_elem_of_cons in Hnot as [Hne Hnot].
      rewrite Hc by exact Hnot. apply lookup_insert_ne. congruence.
    + injection E as <- <-. auto.
Qed.

Lemma EncryptSeeds_loop_wrapped its st st' :
  EncryptSeeds_loop its st = (Normal true, st') →
  NoDup its.*1 →
  ∀ chain seed, (chain, seed) ∈ its →
    ∃ blob, EncryptSeed (base st) seed chain = Some blob
            ∧ mapHDCryptedMasterSeeds st' !! chain = Some blob.
Proof.
  revert st. induction its as [|[c s] rest IH]; intros st E Hnd chain seed Hin.
  - inversion Hin.
  - rewrite EncryptSeeds_loop_cons in E. cbn [fst snd] in E.
    cbn in Hnd. apply NoDup_cons in Hnd as [Hfresh Hnd].
    destruct (EncryptSeed (base st) s c) as [blob|] eqn:Hwrap; [|discriminate].
    apply elem_of_cons in Hin as [Heq|Hin].
    + injection Heq as -> ->. exists blob. split; [exact Hwrap|].
      apply EncryptSeeds_loop_inv in E as (_ & _ & Hc).
      rewrite Hc by exact Hfresh. apply lookup_insert_eq.
    + exact (IH _ E Hnd chain seed Hin).
Qed.

Lemma GetCryptedMasterSeed_eq chain st :
  GetCryptedMasterSeed chain st =
  (Normal (if IsCrypted (base st) then mapHDCryptedMasterSeeds st !! chain else None), st).
Proof.
  unfold GetCryptedMasterSeed, bind, gets, ret. simpl.
  destruct (IsCrypted (base st)); simpl; [|reflexivity].
  destruct (mapHDCryptedMasterSeeds st !! chain); reflexivity.
Qed.

(** C5, as the code has it: after a successful [EncryptSeeds()] the
    plain map is empty and the crypted map holds, for every pair
    [(chainID, seed)] stored before, the blob the key store wrapped the
    seed into, which [DecryptSeed] turns back into [seed] when it inverts
    [EncryptSeed].  [GetCryptedMasterSeed(chainID)] hands out that blob
    when the key store reports [IsCrypted()], a flag [EncryptSeeds] does
    not set, and returns [false] when it does not. *)
Theorem EncryptSeeds_then_decrypt st st' :
  (∀ chain seed blob,
      EncryptSeed (base st) seed chain = Some blob →
      DecryptSeed (base st) blob chain = Some seed) →
  EncryptSeeds st = (Normal true, st') →
  mapHDMasterSeeds st' = ∅
  ∧ IsCrypted (base st') = IsCrypted (base st)
  ∧ ∀ chain seed,
      mapHDMasterSeeds st !! chain = Some seed →
      ∃ blob,
        mapHDCryptedMasterSeeds st' !! chain = Some blob
        ∧ DecryptSeed (base st') blob chain = Some seed
        ∧ GetCryptedMasterSeed chain st'
          = (Normal (if IsCrypted (base st) then Some blob else None), st').
Proof.
  intros Hinv E. unfold EncryptSeeds, bind, gets in E.
  pose proof (EncryptSeeds_loop_inv _ _ _ _ E) as (Hb & Hr & _).
  destruct Hr as [[_ Hempty]|[Hr _]]; [|discriminate].
  split; [exact Hempty|]. split; [rewrite Hb; reflexivity|].
  intros chain seed Hstored.
  destruct (EncryptSeeds_loop_wrapped _ _ _ E (NoDup_fst_entries _) chain seed)
    as (blob & Hwrap & Hblob).
  { apply elem_of_entries, Hstored. }
  exists blob. split; [exact Hblob|]. split.
  - rewrite Hb. exact (Hinv _ _ _ Hwrap).
  - rewrite GetCryptedMasterSeed_eq, Hb, Hblob. reflexivity.
Qed.

Lemma seeds_disjoint_alt st :
  seeds_disjoint st ↔
  ∀ chain, mapHDMasterSeeds st !! chain = None ∨ mapHDCryptedMasterSeeds st !! chain = None.
Proof.
  unfold seeds_disjoint. rewrite elem_of_disjoint. split.
  - intros Hd chain.
    destruct (mapHDMasterSeeds st !! chain) eqn:E1; [|auto].
    destruct (mapHDCryptedMasterSeeds st !! chain) eqn:E2; [|auto].
    exfalso. apply (Hd chain); apply elem_of_dom; eauto.
  - intros Hd chain [? H1]%elem_of_dom [? H2]%elem_of_dom.
    destruct (Hd chain); congruence.
Qed.

(** C2, as the code has it: the store does nothing of its own to keep a
    chain out of one seed map when it is in the other.  A successful
    [EncryptSeeds] empties the plain map, so the maps are disjoint after
    it.  [AddMasterSeed] writes the map [IsCrypted()] selects and
    [AddCryptedMasterSeed] the crypted map; they keep disjoint maps
    disjoint when the chain has no entry in the map they do not write.
    An [EncryptSeeds] that gives up leaves the plain map as it was. *)
Theorem seed_maps_disjointness st :
  (∀ st', EncryptSeeds st = (Normal true, st') →
          mapHDMasterSeeds st' = ∅ ∧ seeds_disjoint st')
  ∧ (∀ chain seed,
        seeds_disjoint st →
        (if IsCrypted (base st)
         then mapHDMasterSeeds st !! chain = None
         else mapHDCryptedMasterSeeds st !! chain = None) →
        seeds_disjoint (AddMasterSeed chain seed st).2)
  ∧ (∀ chain blob,
        seeds_disjoint st →
        mapHDMasterSeeds st !! chain = None →
        seeds_disjoint (AddCryptedMasterSeed chain blob st).2)
  ∧ (∀ st', EncryptSeeds st = (Normal false, st') →
            mapHDMasterSeeds st' = mapHDMasterSeeds st).
Proof.
  split; [|split; [|split]].
  - intros st' E. unfold EncryptSeeds, bind, gets in E.
    apply EncryptSeeds_loop_inv in E as (_ & [[_ E]|[E _]] & _); [|discriminate].
    split; [exact E|].
    unfold seeds_disjoint. rewrite E, dom_empty_L. apply disjoint_empty_l.
  - intros chain seed Hd Hfree.
    apply seeds_disjoint_alt. intros c.
    pose proof (proj1 (seeds_disjoint_alt st) Hd c) as Hc.
    destruct (IsCrypted (base st)) eqn:E.
    + rewrite AddMasterSeed_crypted by exact E.
      destruct (EncryptSeed _ _ _); cbn; [|exact Hc].
      destruct (decide (chain = c)) as [->|Hne]; [auto|].
      rewrite lookup_insert_ne by exact Hne. exact Hc.
    + rewrite AddMasterSeed_plain by exact E. cbn.
      destruct (decide (chain = c)) as [->|Hne]; [auto|].
      rewrite lookup_insert_ne by exact Hne. exact Hc.
  - intros chain blob Hd Hfree.
    apply seeds_disjoint_alt. intros c.
    pose proof (proj1 (seeds_disjoint_alt st) Hd c) as Hc. cbn.
    destruct (decide (chain = c)) as [->|Hne]; [auto|].
    rewrite lookup_insert_ne by exact Hne. exact Hc.
  - intros st' E. unfold EncryptSeeds, bind, gets in E.
    apply EncryptSeeds_loop_inv in E as (_ & [[E _]|[_ E]] & _); [discriminate|exact E].
Qed.

(** ** The next unused child index *)

Lemma for_upto_spec {R} (body : Z → option R) count i :
  match for_upto count body i with
  | inl r => ∃ j, i ≤ j < i + Z.pos count ∧ body j = Some r
                  ∧ ∀ k, i ≤ k < j → body k = None
  | inr i' => i' = i + Z.pos count ∧ ∀ k, i ≤ k < i + Z.pos count → body k = None
  end.
Proof.
  revert i. induction count as [half IH|half IH|]; intros i; cbn [for_upto].
  - destruct (body i) as [r|] eqn:Hi.
    { exists i. split; [lia|]. split; [exact Hi|]. intros k Hk. lia. }
    pose proof (IH (i + 1)) as H1.
    destruct (for_upto half body (i + 1)) as [r|i1].
    { destruct H1 as (j & Hj & Hr & Hbefore). exists j.
      split; [lia|]. split; [exact Hr|].
      intros k Hk. destruct (decide (k = i)) as [->|]; [exact Hi|]. apply Hbefore. lia. }
    destruct H1 as [-> Hfirst]. pose proof (IH (i + 1 + Z.pos half)) as H2.
    destruct (for_upto half body (i + 1 + Z.pos half)) as [r|i2].
    + destruct H2 as (j & Hj & Hr & Hbefore). exists j.
      split; [lia|]. split; [exact Hr|].
      intros k Hk. destruct (decide (k = i)) as [->|]; [exact Hi|].
      destruct (decide (k < i + 1 + Z.pos half)); [apply Hfirst|apply Hbefore]; lia.
    + destruct H2 as [-> Hsecond]. split; [lia|].
      intros k Hk. destruct (decide (k = i)) as [->|]; [exact Hi|].
      destruct (decide (k < i + 1 + Z.pos half)); [apply Hfirst|apply Hsecond]; lia.
  - pose proof (IH i) as H1.
    destruct (for_upto half body i) as [r|i1].
    { destruct H1 as (j & Hj & Hr & Hbefore). exists j.
      split; [lia|]. split; [exact Hr|]. exact Hbefore. }
    destruct H1 as [-> Hfirst]. pose proof (IH (i + Z.pos half)) as H2.
    destruct (for_upto half body (i + Z.pos half)) as [r|i2].
    + destruct H2 as (j & Hj & Hr & Hbefore). exists j.
      split; [lia|]. split; [exact Hr|].
      intros k Hk.
      destruct (decide (k < i + Z.pos half)); [apply Hfirst|apply Hbefore]; lia.
    + destruct H2 as [-> Hsecond]. split; [lia|].
      intros k Hk.
      destruct (decide (k < i + Z.pos half)); [apply Hfirst|apply Hsecond]; lia.
  - destruct (body i) as [r|] eqn:Hi.
    + exists i. split; [lia|]. split; [exact Hi|]. intros k Hk. lia.
    + split; [lia|]. intros k Hk. replace k with i by lia. exact Hi.
Qed.

Lemma elem_of_collect_indices chain isInternal st i :
  i ∈ collect_indices chain isInternal (mapHDPubKeys st)
  ↔ index_used st chain isInternal i.
Proof.
  unfold collect_indices, index_used.
  rewrite list_elem_of_fmap. split.
  - intros (r & -> & Hr). apply list_elem_of_filter in Hr as [[Hc Hi] Hr].
    apply list_elem_of_fmap in Hr as ([keyID r'] & -> & Hr).
    apply elem_of_entries in Hr. exists keyID, r'. auto.
  - intros (keyID & r & Hr & Hc & Hi & Hn). exists r. split; [auto|].
    apply list_elem_of_filter. split; [auto|].
    apply list_elem_of_fmap. exists (keyID, r). split; [reflexivity|].
    apply elem_of_entries, Hr.
Qed.

(** C4: [GetNextChildIndex] returns an index in [0, 2^31) that is the
    smallest one without a catalog record of the same chain and side: it
    is unused and no unused index of the range is below it.  With
    records at 0 and 2 it returns 1, with records at 0, 1, 2 and 100 it
    returns 3. *)
Theorem GetNextChildIndex_least chain isInternal st :
  ∃ r, GetNextChildIndex chain isInternal st = (Normal r, st)
       ∧ 0 ≤ r < 2 ^ 31
       ∧ (∀ i, 0 ≤ i < 2 ^ 31 → ¬ index_used st chain isInternal i →
               ¬ index_used st chain isInternal r
               ∧ r ≤ i
               ∧ ∀ j, 0 ≤ j < r → index_used st chain isInternal j)
       ∧ ((∀ i, index_used st chain isInternal i ↔ i = 0 ∨ i = 2) → r = 1)
       ∧ ((∀ i, index_used st chain isInternal i ↔ i = 0 ∨ i = 1 ∨ i = 2 ∨ i = 100) →
          r = 3).
Proof.
  unfold GetNextChildIndex, bind, gets.
  set (vIndices := collect_indices chain isInternal (mapHDPubKeys st)).
  set (body := fun i : Z => if bool_decide (i ∈ vIndices) then None else Some i).
  assert (Hbody_none : ∀ k, body k = None ↔ index_used st chain isInternal k).
  { intros k. unfold body. rewrite <- elem_of_collect_indices. fold vIndices.
    destruct (bool_decide_reflect (k ∈ vIndices)); split; auto; discriminate || contradiction. }
  assert (Hmain : ∃ r, match for_upto 2147483648 body 0 with
                       | inl i => ret i
                       | inr _ => ret 0
                       end st = (Normal r, st)
            ∧ 0 ≤ r < 2 ^ 31
            ∧ (∀ i, 0 ≤ i < 2 ^ 31 → ¬ index_used st chain isInternal i →
               ¬ index_used st chain isInternal r ∧ r ≤ i
               ∧ ∀ j, 0 ≤ j < r → index_used st chain isInternal j)).
  { pose proof (for_upto_spec body 2147483648 0) as Hloop.
    destruct (for_upto 2147483648 body 0) as [r|i'].
    - destruct Hloop as (j & Hj & Hr & Hbefore).
      assert (j = r) as ->.
      { unfold body in Hr. destruct (bool_decide _); congruence. }
      exists r. split; [reflexivity|]. split; [lia|].
      intros i Hi Hfree.
      split; [intros Hused; apply Hbody_none in Hused; congruence|].
      split.
      + destruct (decide (r ≤ i)); [assumption|].
        exfalso. apply Hfree, Hbody_none, Hbefore. lia.
      + intros k Hk. apply Hbody_none, Hbefore. lia.
    - destruct Hloop as [_ Hall].
      exists 0. split; [reflexivity|]. split; [lia|].
      intros i Hi Hfree. exfalso. apply Hfree, Hbody_none, Hall. lia. }
  destruct Hmain as (r & Hrun & Hrange & Hleast).
  exists r. split; [exact Hrun|]. split; [exact Hrange|]. split; [exact Hleast|].
  split; intros Hset.
  - destruct (Hleast 1) as (Hfree & Hle & _); [lia|rewrite Hset; lia|].
    rewrite Hset in Hfree. lia.
  - destruct (Hleast 3) as (Hfree & Hle & _); [lia|rewrite Hset; lia|].
    rewrite Hset in Hfree. lia.
Qed.

(** ** Deriving the public key at an index *)

(** Replacing the one-character string ["c"] letter by letter. *)
Lemma replace_all_materialize template isInternal :
  replace_all template "c" (itostr (bool_to_int isInternal))
  = materialize template isInternal.
Proof.
  assert (Hprefix : ∀ s, String.prefix EmptyString s = true) by (intros []; reflexivity).
  unfold replace_all.
  induction template as [|ch rest IH]; [reflexivity|].
  cbn [replace_all_from materialize String.prefix String.length Nat.sub].
  destruct (Ascii.ascii_dec "c" ch) as [<-|Hne].
  - rewrite Hprefix, IH. destruct isInternal; reflexivity.
  - rewrite IH. destruct (Ascii.eqb_spec ch "c") as [->|_]; [contradiction|reflexivity].
Qed.

(** The outcome of [DeriveHDPubKeyAtIndex], case by case. *)
Lemma DeriveHDPubKeyAtIndex_eq chain nIndex isInternal st out :
  DeriveHDPubKeyAtIndex chain nIndex isInternal (st, out) =
  match mapChains st !! chain with
  | None => (Normal false, (st, out))
  | Some hdChain =>
      if 0x80000000 <=? nIndex
      then (Throw "CHDKeyStore::DeriveHDPubKeyAtIndex(): No more available keys!", (st, out))
      else
        let path0 := materialize (keypathTemplate hdChain) isInternal in
        if derives_privately hdChain isInternal
        then
          let path := path0 ++ "/" ++ itostr (to_int32 nIndex) ++ "'" in
          let out1 := set_keypath (fun _ => path) out in
          match (PrivKeyDer path chain st).1 with
          | Normal (Some extKeyOut) =>
              (Normal true,
               (st, set_derived (CExtPubKey_pubkey (CExtKey_Neuter extKeyOut))
                                chain nIndex isInternal out1))
          | Normal None =>
              (Throw "CHDKeyStore::DeriveHDPubKeyAtIndex(): Private Key Derivation failed!",
               (st, out1))
          | Throw what => (Throw what, (st, out1))
          | OutOfBounds => (OutOfBounds, (st, out1))
          end
        else
          let path := path0 ++ "/" ++ itostr (to_int32 nIndex) in
          let out1 := set_keypath (fun _ => path) out in
          match CExtPubKey_Derive
                  (if isInternal then internalPubKey hdChain else externalPubKey hdChain)
                  nIndex with
          | Some childKey =>
              (Normal true,
               (st, set_derived (CExtPubKey_pubkey childKey) chain nIndex isInternal out1))
          | None =>
              (Throw "CHDKeyStore::DeriveHDPubKeyAtIndex(): Key deriving failed!", (st, out1))
          end
  end.
Proof.
  unfold DeriveHDPubKeyAtIndex, on_store, zoom. unfold bind at 1.
  cbn [fst snd]. rewrite GetChain_eq.
  destruct (mapChains st !! chain) as [hdChain|]; [|reflexivity].
  destruct (0x80000000 <=? nIndex); [reflexivity|].
  fold (derives_privately hdChain isInternal).
  destruct (derives_privately hdChain isInternal);
    unfold bind, on_out, modify, gets, ret, throw, set_keypath;
    cbn [fst snd keypath]; rewrite replace_all_materialize; cbv zeta.
  - set (path := materialize (keypathTemplate hdChain) isInternal ++ _).
    destruct (PrivKeyDer_loop_frame (split "/" path) chain CExtKey_default st)
      as (r & Hr & Hnothrow).
    unfold PrivKeyDer. rewrite Hr. cbn [fst snd].
    destruct r as [[extKeyOut|]|what|]; reflexivity.
  - destruct (CExtPubKey_Derive _ nIndex); reflexivity.
Qed.

Lemma to_int32_small n : 0 ≤ n < 2 ^ 31 → to_int32 n = n.
Proof. intros Hn. unfold to_int32. rewrite Z.mod_small; lia. Qed.

(** C1, as the code has it: for a registered chain and an index below
    2^31 the keypath is the template with every [c] replaced by ["0"]
    (external) or ["1"] (internal).  If the internal side is asked for
    and the internal root is invalid, or the external root is invalid,
    the path gets the hardened index ["/<nIndex>'"] and the extended
    private key is derived along it from the seed and neutered;
    otherwise the path gets ["/<nIndex>"] and the key is derived publicly
    from the root of the side asked for.  When that derivation succeeds,
    the call returns [true] and the record handed back carries the
    derived key, the chain, [nChild = nIndex], the side and the path.
    When it fails ([PrivKeyDer] returns [false], or
    [CExtPubKey::Derive] does), the call throws and the caller's record
    has its keypath replaced by the path and nothing else set. *)
Theorem DeriveHDPubKeyAtIndex_modes chain hdChain nIndex isInternal st out :
  mapChains st !! chain = Some hdChain →
  0 ≤ nIndex < 2 ^ 31 →
  let path0 := materialize (keypathTemplate hdChain) isInternal in
  (isInternal && negb (CPubKey_IsValid (CExtPubKey_pubkey (internalPubKey hdChain)))
   || negb (CPubKey_IsValid (CExtPubKey_pubkey (externalPubKey hdChain))) = true →
   (∀ extKey,
      (PrivKeyDer (path0 ++ "/" ++ itostr nIndex ++ "'") chain st).1
      = Normal (Some extKey) →
      DeriveHDPubKeyAtIndex chain nIndex isInternal (st, out) =
      (Normal true,
       (st, {| nVersion := nVersion out;
               pubkey := CExtPubKey_pubkey (CExtKey_Neuter extKey);
               nChild := nIndex;
               chainID := chain;
               keypath := path0 ++ "/" ++ itostr nIndex ++ "'";
               internal := isInternal |})))
   ∧ ((PrivKeyDer (path0 ++ "/" ++ itostr nIndex ++ "'") chain st).1 = Normal None →
      DeriveHDPubKeyAtIndex chain nIndex isInternal (st, out) =
      (Throw "CHDKeyStore::DeriveHDPubKeyAtIndex(): Private Key Derivation failed!",
       (st, {| nVersion := nVersion out;
               pubkey := pubkey out;
               nChild := nChild out;
               chainID := chainID out;
               keypath := path0 ++ "/" ++ itostr nIndex ++ "'";
               internal := internal out |}))))
  ∧ (isInternal && negb (CPubKey_IsValid (CExtPubKey_pubkey (internalPubKey hdChain)))
     || negb (CPubKey_IsValid (CExtPubKey_pubkey (externalPubKey hdChain))) = false →
     (∀ childKey,
        CExtPubKey_Derive
          (if isInternal then internalPubKey hdChain else externalPubKey hdChain) nIndex
        = Some childKey →
        DeriveHDPubKeyAtIndex chain nIndex isInternal (st, out) =
        (Normal true,
         (st, {| nVersion := nVersion out;
                 pubkey := CExtPubKey_pubkey childKey;
                 nChild := nIndex;
                 chainID := chain;
                 keypath := path0 ++ "/" ++ itostr nIndex;
                 internal := isInternal |})))
     ∧ (CExtPubKey_Derive
          (if isInternal then internalPubKey hdChain else externalPubKey hdChain) nIndex
        = None →
        DeriveHDPubKeyAtIndex chain nIndex isInternal (st, out) =
        (Throw "CHDKeyStore::DeriveHDPubKeyAtIndex(): Key deriving failed!",
         (st, {| nVersion := nVersion out;
                 pubkey := pubkey out;
                 nChild := nChild out;
                 chainID := chainID out;
                 keypath := path0 ++ "/" ++ itostr nIndex;
                 internal := internal out |})))).
Proof.
  intros Hchain Hn path0.
  assert (Hlt : (0x80000000 <=? nIndex) = false) by (apply Z.leb_gt; lia).
  split; intros Hmode; split.
  - intros extKey Hder.
    rewrite DeriveHDPubKeyAtIndex_eq, Hchain, Hlt.
    unfold derives_privately. rewrite Hmode. cbv zeta.
    rewrite to_int32_small by exact Hn. fold path0. rewrite Hder. reflexivity.
  - intros Hder.
    rewrite DeriveHDPubKeyAtIndex_eq, Hchain, Hlt.
    unfold derives_privately. rewrite Hmode. cbv zeta.
    rewrite to_int32_small by exact Hn. fold path0. rewrite Hder. reflexivity.
  - intros childKey Hder.
    rewrite DeriveHDPubKeyAtIndex_eq, Hchain, Hlt.
    unfold derives_privately. rewrite Hmode. cbv zeta.
    rewrite to_int32_small by exact Hn. fold path0. rewrite Hder. reflexivity.
  - intros Hder.
    rewrite DeriveHDPubKeyAtIndex_eq, Hchain, Hlt.
    unfold derives_privately. rewrite Hmode. cbv zeta.
    rewrite to_int32_small by exact Hn. fold path0. rewrite Hder. reflexivity.
Qed.

(** C3, as the code has it: the chain is looked up first, so with an
    unregistered chain the call returns [false] whatever the index; with
    a registered chain and an index of 2^31 or more it throws
    [std::runtime_error] ("No more available keys!"), which leaves the
    function as an exception and not as its [bool] result; at
    [nIndex = 0x7FFFFFFF] a registered chain passes the check and the
    call returns [true] with [nChild = 0x7FFFFFFF] when the derivation
    itself succeeds. *)
Theorem DeriveHDPubKeyAtIndex_index_bound chain nIndex isInternal st out :
  (mapChains st !! chain = None →
   DeriveHDPubKeyAtIndex chain nIndex isInternal (st, out) = (Normal false, (st, out)))
  ∧ (∀ hdChain,
        mapChains st !! chain = Some hdChain → 0x80000000 ≤ nIndex →
        DeriveHDPubKeyAtIndex chain nIndex isInternal (st, out) =
        (Throw "CHDKeyStore::DeriveHDPubKeyAtIndex(): No more available keys!", (st, out)))
  ∧ (∀ hdChain,
        mapChains st !! chain = Some hdChain → nIndex = 0x7FFFFFFF →
        (derives_privately hdChain isInternal = false →
         is_Some (CExtPubKey_Derive
                    (if isInternal then internalPubKey hdChain else externalPubKey hdChain)
                    nIndex) →
         (DeriveHDPubKeyAtIndex chain nIndex isInternal (st, out)).1 = Normal true
         ∧ nChild (DeriveHDPubKeyAtIndex chain nIndex isInternal (st, out)).2.2 = 0x7FFFFFFF)
        ∧ (derives_privately hdChain isInternal = true →
           (∃ extKey,
               (PrivKeyDer (materialize (keypathTemplate hdChain) isInternal
                            ++ "/2147483647'") chain st).1 = Normal (Some extKey)) →
           (DeriveHDPubKeyAtIndex chain nIndex isInternal (st, out)).1 = Normal true
           ∧ nChild (DeriveHDPubKeyAtIndex chain nIndex isInternal (st, out)).2.2
             = 0x7FFFFFFF)).
Proof.
  split; [|split].
  - intros Hchain. rewrite DeriveHDPubKeyAtIndex_eq, Hchain. reflexivity.
  - intros hdChain Hchain Hn. rewrite DeriveHDPubKeyAtIndex_eq, Hchain.
    apply Z.leb_le in Hn. rewrite Hn. reflexivity.
  - intros hdChain Hchain ->. rewrite DeriveHDPubKeyAtIndex_eq, Hchain.
    change (0x80000000 <=? 0x7FFFFFFF) with false. cbv iota zeta.
    split; intros Hmode; rewrite Hmode.
    + intros [childKey Hder]. rewrite Hder. split; reflexivity.
    + intros [extKey Hder].
      change (itostr (to_int32 0x7FFFFFFF)) with "2147483647".
      change ("/" ++ "2147483647" ++ "'") with "/2147483647'".
      rewrite Hder. split; reflexivity.
Qed.

(** C9: whichever way [DeriveHDPubKeyAtIndex] ends, the store (key
    store below, both seed maps, catalog and chain registry) is the one
    it was called on; with a chain that is not registered it returns
    [false] and leaves the caller's record alone as well.  The catalog
    changes through [LoadHDPubKey], which files the record under the id
    of its public key. *)
Theorem DeriveHDPubKeyAtIndex_frame chain nIndex isInternal st out :
  (DeriveHDPubKeyAtIndex chain nIndex isInternal (st, out)).2.1 = st
  ∧ (mapChains st !! chain = None →
     DeriveHDPubKeyAtIndex chain nIndex isInternal (st, out) = (Normal false, (st, out)))
  ∧ (∀ record,
        LoadHDPubKey record st =
        (Normal true, set_mapHDPubKeys <[CPubKey_GetID (pubkey record) := record]> st)).
Proof.
  split; [|split].
  - rewrite DeriveHDPubKeyAtIndex_eq.
    destruct (mapChains st !! chain) as [hdChain|]; [|reflexivity].
    destruct (0x80000000 <=? nIndex); [reflexivity|]. cbv zeta.
    destruct (derives_privately hdChain isInternal).
    + destruct (PrivKeyDer _ chain st).1 as [[extKey|]|what|]; reflexivity.
    + destruct (CExtPubKey_Derive _ nIndex); reflexivity.
  - intros Hchain. rewrite DeriveHDPubKeyAtIndex_eq, Hchain. reflexivity.
  - intros record. reflexivity.
Qed.

End Properties.

(** * Further properties of the façade *)

Section FacadeProperties.
Context `{BaseKeyStore}.
Local Open Scope Z_scope.

Implicit Types st : CHDKeyStore.

(** ** The chain registry and the catalog *)

(** X1: [AddChain] returns [true] and files the chain under its own
    [chainID], replacing what was there; [GetChain] then returns it, and
    returns for every other id what it returned before.  The seed maps,
    the catalog and the key store below are not touched. *)
Theorem AddChain_GetChain chain st :
  (AddChain chain st).1 = Normal true
  ∧ GetChain (chain_chainID chain) (AddChain chain st).2
    = (Normal (Some chain), (AddChain chain st).2)
  ∧ (∀ other, other ≠ chain_chainID chain →
        (GetChain other (AddChain chain st).2).1 = (GetChain other st).1)
  ∧ base (AddChain chain st).2 = base st
  ∧ mapHDMasterSeeds (AddChain chain st).2 = mapHDMasterSeeds st
  ∧ mapHDCryptedMasterSeeds (AddChain chain st).2 = mapHDCryptedMasterSeeds st
  ∧ mapHDPubKeys (AddChain chain st).2 = mapHDPubKeys st.
Proof.
  split; [reflexivity|]. split.
  - rewrite GetChain_eq. cbn. rewrite lookup_insert_eq. reflexivity.
  - split; [|repeat split].
    intros other Hne. rewrite !GetChain_eq. cbn.
    rewrite lookup_insert_ne by congruence. reflexivity.
Qed.

Lemma EncryptSeeds_loop_others its st r st' :
  EncryptSeeds_loop its st = (r, st') →
  mapHDPubKeys st' = mapHDPubKeys st ∧ mapChains st' = mapChains st.
Proof.
  revert st. induction its as [|[c seed] rest IH]; intros st E.
  - cbn in E. injection E as <- <-. auto.
  - rewrite EncryptSeeds_loop_cons in E. cbn [fst snd] in E.
    destruct (EncryptSeed (base st) seed c) as [blob|].
    + apply IH in E. exact E.
    + injection E as <- <-. auto.
Qed.

(** X2: the store keeps its two maps of records keyed by what the
    records say: if every registered chain is filed under its own
    [chainID] and every catalog record under the id of its public key,
    this is still so after [AddChain], [LoadHDPubKey], [AddMasterSeed],
    [AddCryptedMasterSeed] and [EncryptSeeds]. *)
Theorem store_keyed_preserved st :
  store_keyed st →
  (∀ chain, store_keyed (AddChain chain st).2)
  ∧ (∀ record, store_keyed (LoadHDPubKey record st).2)
  ∧ (∀ chain seed, store_keyed (AddMasterSeed chain seed st).2)
  ∧ (∀ chain blob, store_keyed (AddCryptedMasterSeed chain blob st).2)
  ∧ store_keyed (EncryptSeeds st).2.
Proof.
  intros [Hchains Hkeys]. split; [|split; [|split; [|split]]].
  - intros chain. split; [|exact Hkeys].
    intros id c. cbn. destruct (decide (chain_chainID chain = id)) as [<-|Hne].
    + rewrite lookup_insert_eq. congruence.
    + rewrite lookup_insert_ne by exact Hne. apply Hchains.
  - intros record. split; [exact Hchains|].
    intros id r. cbn.
    destruct (decide (CPubKey_GetID (pubkey record) = id)) as [<-|Hne].
    + rewrite lookup_insert_eq. congruence.
    + rewrite lookup_insert_ne by exact Hne. apply Hkeys.
  - intros chain seed. destruct (IsCrypted (base st)) eqn:E.
    + rewrite AddMasterSeed_crypted by exact E.
      destruct (EncryptSeed _ _ _); split; assumption.
    + rewrite AddMasterSeed_plain by exact E. split; assumption.
  - intros chain blob. split; assumption.
  - unfold EncryptSeeds, bind, gets.
    destruct (EncryptSeeds_loop _ st) as [r st'] eqn:E.
    apply EncryptSeeds_loop_others in E as [E1 E2].
    unfold store_keyed. cbn [snd]. rewrite E1, E2. split; assumption.
Qed.

(** X3: the catalog comes first.  For an id the catalog has a record
    for, [HaveKey] is [true] and [GetPubKey] hands out the public key of
    the record, whatever the key store below holds under that id; for an
    id the catalog does not have, [HaveKey], [GetPubKey] and [GetKey]
    answer what the key store below answers.  A record just loaded is
    found under the id of its public key.  None of them changes the
    store. *)
Theorem catalog_before_base address st :
  (∀ record, mapHDPubKeys st !! address = Some record →
      HaveKey address st = (Normal true, st)
      ∧ GetPubKey address st = (Normal (Some (pubkey record)), st))
  ∧ (mapHDPubKeys st !! address = None →
      HaveKey address st = (Normal (CCryptoKeyStore_HaveKey (base st) address), st)
      ∧ GetPubKey address st = (Normal (CCryptoKeyStore_GetPubKey (base st) address), st)
      ∧ GetKey address st = (Normal (CCryptoKeyStore_GetKey (base st) address), st))
  ∧ (∀ record, CPubKey_GetID (pubkey record) = address →
      (HaveKey address (LoadHDPubKey record st).2).1 = Normal true
      ∧ (GetPubKey address (LoadHDPubKey record st).2).1 = Normal (Some (pubkey record))).
Proof.
  split; [|split].
  - intros record Hrec. unfold HaveKey, GetPubKey, bind, gets, ret.
    cbn. rewrite Hrec. split; reflexivity.
  - intros Hnone. unfold HaveKey, GetPubKey, GetKey, bind, gets, ret.
    cbn. rewrite Hnone. repeat split; reflexivity.
  - intros record <-. unfold HaveKey, GetPubKey, bind, gets, ret.
    cbn. rewrite lookup_insert_eq. split; reflexivity.
Qed.

(** ** Private keys of catalog records *)

(** The walk looks at the store through [GetMasterSeed] only. *)
Lemma PrivKeyDer_loop_seed_ext pathFragments chain parentKey st1 st2 :
  (GetMasterSeed chain st1).1 = (GetMasterSeed chain st2).1 →
  (PrivKeyDer_loop pathFragments chain parentKey st1).1
  = (PrivKeyDer_loop pathFragments chain parentKey st2).1.
Proof.
  intros Hseed. rewrite !GetMasterSeed_eq in Hseed. cbn [fst] in Hseed.
  injection Hseed as Hseed.
  revert parentKey. induction pathFragments as [|fragment rest IH]; intros parentKey.
  - reflexivity.
  - cbn [PrivKeyDer_loop].
    destruct (back fragment) as [last|]; [|reflexivity]. cbv zeta.
    destruct (String.eqb _ "m").
    + unfold bind. rewrite !GetMasterSeed_eq, Hseed.
      destruct (if IsCrypted (base st2) then _ else _); [apply IH|reflexivity].
    + destruct (String.eqb _ "c"); [reflexivity|].
      destruct (ParseInt32 _); [apply IH|reflexivity].
Qed.

Lemma GetKey_hit address record st :
  mapHDPubKeys st !! address = Some record →
  GetKey address st =
  (match (PrivKeyDer (keypath record) (chainID record) st).1 with
   | Normal (Some extKey) => Normal (Some (CExtKey_key extKey))
   | Normal None => Normal None
   | Throw what => Throw what
   | OutOfBounds => OutOfBounds
   end, st).
Proof.
  intros Hrec. unfold GetKey, DeriveKey. unfold bind at 1. unfold gets at 1.
  rewrite Hrec. unfold bind, ret, PrivKeyDer.
  destruct (PrivKeyDer_loop_frame (split "/" (keypath record)) (chainID record)
              CExtKey_default st) as (r & Hr & _).
  rewrite Hr. cbn [fst]. destruct r as [[extKey|]|what|]; reflexivity.
Qed.

(** X4: for an id the catalog has a record for, [GetKey] derives the
    key again along the keypath and chain stored in the record and hands
    out the [key] member of the result; the key store below is not
    asked, also not when the derivation fails: [GetKey] then returns
    [false] (or stops out of bounds where the walk does), whatever the
    key store below holds under that id.  The store is unchanged. *)
Theorem GetKey_rederives address record st :
  mapHDPubKeys st !! address = Some record →
  (GetKey address st).2 = st
  ∧ (∀ extKey,
        (PrivKeyDer (keypath record) (chainID record) st).1 = Normal (Some extKey) →
        (GetKey address st).1 = Normal (Some (CExtKey_key extKey)))
  ∧ ((PrivKeyDer (keypath record) (chainID record) st).1 = Normal None →
     (GetKey address st).1 = Normal None)
  ∧ ((PrivKeyDer (keypath record) (chainID record) st).1 = OutOfBounds →
     (GetKey address st).1 = OutOfBounds).
Proof.
  intros Hrec. rewrite (GetKey_hit _ _ _ Hrec). cbn [fst snd].
  split; [reflexivity|].
  split; [intros extKey E|split; intros E]; rewrite E; reflexivity.
Qed.

(** X5: a record that went through [SetNull] has an empty keypath; once
    it is loaded, [GetKey] for the id of its public key walks the empty
    keypath and stops at the out-of-bounds read of the hardened-marker
    test.  [LoadHDPubKey] accepts the record all the same. *)
Theorem GetKey_of_null_record record st :
  (LoadHDPubKey (CHDPubKey_SetNull record) st).1 = Normal true
  ∧ (GetKey (CPubKey_GetID (pubkey record))
            (LoadHDPubKey (CHDPubKey_SetNull record) st).2).1 = OutOfBounds.
Proof.
  split; [reflexivity|].
  rewrite (GetKey_hit _ (CHDPubKey_SetNull record)).
  - reflexivity.
  - cbn. apply lookup_insert_eq.
Qed.

(** X6: deriving privately, loading, asking for the key.  When
    [DeriveHDPubKeyAtIndex] returns [true] for a chain that derives
    privately and the caller loads the record it got, [GetKey] for the
    id of the record's public key returns the [key] member of an
    extended private key whose neutered form carries exactly the
    record's public key. *)
Theorem Derive_Load_GetKey chain hdChain nIndex isInternal st out st1 record :
  mapChains st !! chain = Some hdChain →
  derives_privately hdChain isInternal = true →
  DeriveHDPubKeyAtIndex chain nIndex isInternal (st, out) = (Normal true, (st1, record)) →
  ∃ extKey,
    pubkey record = CExtPubKey_pubkey (CExtKey_Neuter extKey)
    ∧ (GetKey (CPubKey_GetID (pubkey record)) (LoadHDPubKey record st1).2).1
      = Normal (Some (CExtKey_key extKey)).
Proof.
  intros Hchain Hmode Hrun.
  rewrite DeriveHDPubKeyAtIndex_eq, Hchain in Hrun.
  destruct (0x80000000 <=? nIndex); [discriminate|].
  cbv zeta in Hrun. rewrite Hmode in Hrun.
  set (path := materialize (keypathTemplate hdChain) isInternal ++ _) in Hrun.
  destruct (PrivKeyDer path chain st).1 as [[extKey|]|what|] eqn:Hder;
    try discriminate.
  injection Hrun as <- <-. exists extKey. split; [reflexivity|].
  rewrite (GetKey_hit _ (set_derived (CExtPubKey_pubkey (CExtKey_Neuter extKey)) chain
                           nIndex isInternal (set_keypath (fun _ => path) out))).
  - cbn [fst keypath chainID set_derived set_keypath].
    unfold PrivKeyDer in *.
    rewrite (PrivKeyDer_loop_seed_ext _ _ _ _ st), Hder; [reflexivity|].
    rewrite !GetMasterSeed_eq. reflexivity.
  - cbn. apply lookup_insert_eq.
Qed.

(** ** The seed vault, continued *)

Lemma elem_of_entries_keys {V} (m : gmap N V) (k : N) :
  k ∈ (entries m).*1 ↔ is_Some (m !! k).
Proof.
  rewrite list_elem_of_fmap. split.
  - intros ([k' v] & -> & Hin). apply elem_of_entries in Hin. eauto.
  - intros [v Hv]. exists (k, v). split; [reflexivity|]. apply elem_of_entries, Hv.
Qed.

Lemma GetAvailableChainIDs_eq st :
  GetAvailableChainIDs st =
  (Normal (if IsCrypted (base st)
           then (entries (mapHDCryptedMasterSeeds st)).*1
           else (entries (mapHDMasterSeeds st)).*1), st).
Proof.
  unfold GetAvailableChainIDs, bind, gets. cbn.
  destruct (IsCrypted (base st)); reflexivity.
Qed.

(** X7: [GetAvailableChainIDs] leaves the store alone and lists, in
    ascending order and without repetition, the chains of the seed map
    that [IsCrypted()] selects: in the Plaintext state exactly the
    chains [GetMasterSeed] has a seed for, in the Encrypted state exactly
    the chains [GetCryptedMasterSeed] has a blob for (whether or not the
    blob can be decrypted). *)
Theorem GetAvailableChainIDs_lists st :
  ∃ chainIDs,
    GetAvailableChainIDs st = (Normal chainIDs, st)
    ∧ NoDup chainIDs
    ∧ Sorted N.le chainIDs
    ∧ (IsCrypted (base st) = false →
       ∀ chain, chain ∈ chainIDs
                ↔ ∃ seed, (GetMasterSeed chain st).1 = Normal (Some seed))
    ∧ (IsCrypted (base st) = true →
       ∀ chain, chain ∈ chainIDs
                ↔ ∃ blob, (GetCryptedMasterSeed chain st).1 = Normal (Some blob)).
Proof.
  eexists. split; [apply GetAvailableChainIDs_eq|].
  split; [destruct (IsCrypted (base st)); apply NoDup_fst_entries|].
  split.
  { destruct (IsCrypted (base st));
      (eapply Sorted_fmap; [|apply Sorted_entries]); intros a b Hab; exact Hab. }
  split; intros E chain; rewrite E.
  - rewrite elem_of_entries_keys, GetMasterSeed_eq, E. cbn [fst].
    split; [intros [seed ->]; eauto|intros [seed [= ->]]; eauto].
  - rewrite elem_of_entries_keys, GetCryptedMasterSeed_eq, E. cbn [fst].
    split; [intros [blob ->]; eauto|intros [blob [= ->]]; eauto].
Qed.

(** X8: [AddMasterSeed] ends by returning [true] or [false].  It returns
    [false] only in the Encrypted state when the key store cannot wrap
    the seed, and then the store is unchanged.  When it returns [true]
    the chain is among the ids [GetAvailableChainIDs] lists afterwards;
    in the Encrypted state [GetMasterSeed] then returns whatever
    [DecryptSeed] makes of the blob [EncryptSeed] produced, which is the
    seed when [DecryptSeed] inverts [EncryptSeed]. *)
Theorem AddMasterSeed_outcome chain seed st :
  ((AddMasterSeed chain seed st).1 = Normal true
   ∨ (AddMasterSeed chain seed st).1 = Normal false)
  ∧ ((AddMasterSeed chain seed st).1 = Normal false →
     IsCrypted (base st) = true
     ∧ EncryptSeed (base st) seed chain = None
     ∧ (AddMasterSeed chain seed st).2 = st)
  ∧ ((AddMasterSeed chain seed st).1 = Normal true →
     ∃ chainIDs,
       (GetAvailableChainIDs (AddMasterSeed chain seed st).2).1 = Normal chainIDs
       ∧ chain ∈ chainIDs)
  ∧ (IsCrypted (base st) = true →
     ∀ blob, EncryptSeed (base st) seed chain = Some blob →
       (AddMasterSeed chain seed st).1 = Normal true
       ∧ (GetCryptedMasterSeed chain (AddMasterSeed chain seed st).2).1
         = Normal (Some blob)
       ∧ (GetMasterSeed chain (AddMasterSeed chain seed st).2).1
         = Normal (DecryptSeed (base st) blob chain)).
Proof.
  destruct (IsCrypted (base st)) eqn:E.
  - rewrite AddMasterSeed_crypted by exact E.
    destruct (EncryptSeed (base st) seed chain) as [blob|] eqn:Hwrap; cbn [fst snd].
    + split; [auto|]. split; [discriminate|]. split.
      * intros _. eexists. rewrite GetAvailableChainIDs_eq.
        cbn [fst base set_mapHDCryptedMasterSeeds set_mapHDMasterSeeds
             mapHDCryptedMasterSeeds mapHDMasterSeeds].
        rewrite E. split; [reflexivity|].
        apply elem_of_entries_keys. cbn. rewrite lookup_insert_eq. eauto.
      * intros _ blob' [= <-]. split; [reflexivity|]. split.
        -- rewrite GetCryptedMasterSeed_eq. cbn.
           rewrite E, lookup_insert_eq. reflexivity.
        -- rewrite GetMasterSeed_eq. cbn.
           rewrite E, lookup_insert_eq. reflexivity.
    + split; [auto|]. split; [auto|]. split; [discriminate|].
      intros _ blob' [=].
  - rewrite AddMasterSeed_plain by exact E. cbn [fst snd].
    split; [auto|]. split; [discriminate|]. split; [|discriminate].
    intros _. eexists. rewrite GetAvailableChainIDs_eq.
        cbn [fst base set_mapHDCryptedMasterSeeds set_mapHDMasterSeeds
             mapHDCryptedMasterSeeds mapHDMasterSeeds].
    rewrite E. split; [reflexivity|].
    apply elem_of_entries_keys. cbn. rewrite lookup_insert_eq. eauto.
Qed.

(** X9: [AddCryptedMasterSeed] always returns [true] and files the blob
    under the chain, last one wins.  In the Encrypted state
    [GetCryptedMasterSeed] then returns that blob and [GetMasterSeed]
    what [DecryptSeed] makes of it; in the Plaintext state
    [GetCryptedMasterSeed] returns [false] all the same, and
    [GetMasterSeed] is not affected by the call at all. *)
Theorem AddCryptedMasterSeed_GetCryptedMasterSeed chain blob st :
  (AddCryptedMasterSeed chain blob st).1 = Normal true
  ∧ (IsCrypted (base st) = true →
     (GetCryptedMasterSeed chain (AddCryptedMasterSeed chain blob st).2).1
     = Normal (Some blob)
     ∧ (GetMasterSeed chain (AddCryptedMasterSeed chain blob st).2).1
       = Normal (DecryptSeed (base st) blob chain)
     ∧ ∀ other, other ≠ chain →
         (GetCryptedMasterSeed other (AddCryptedMasterSeed chain blob st).2).1
         = (GetCryptedMasterSeed other st).1)
  ∧ (IsCrypted (base st) = false →
     ∀ any,
       (GetCryptedMasterSeed any (AddCryptedMasterSeed chain blob st).2).1 = Normal None
       ∧ (GetMasterSeed any (AddCryptedMasterSeed chain blob st).2).1
         = (GetMasterSeed any st).1).
Proof.
  split; [reflexivity|]. split; intros E.
  - split; [|split].
    + rewrite GetCryptedMasterSeed_eq. cbn.
      rewrite E, lookup_insert_eq. reflexivity.
    + rewrite GetMasterSeed_eq. cbn.
      rewrite E, lookup_insert_eq. reflexivity.
    + intros other Hne. rewrite !GetCryptedMasterSeed_eq. cbn.
      rewrite E, lookup_insert_ne by congruence. reflexivity.
  - intros any. split.
    + rewrite GetCryptedMasterSeed_eq. cbn. rewrite E. reflexivity.
    + rewrite !GetMasterSeed_eq. cbn. rewrite E. reflexivity.
Qed.

(** ** Encrypting the seeds *)

Lemma EncryptSeeds_loop_true_iff its st :
  (EncryptSeeds_loop its st).1 = Normal true
  ↔ ∀ chain seed, (chain, seed) ∈ its → is_Some (EncryptSeed (base st) seed chain).
Proof.
  revert st. induction its as [|[c s] rest IH]; intros st.
  - split; [intros _ chain seed Hin; inversion Hin|reflexivity].
  - rewrite EncryptSeeds_loop_cons. cbn [fst snd].
    destruct (EncryptSeed (base st) s c) as [blob|] eqn:Hwrap.
    + rewrite IH. cbn [base set_mapHDCryptedMasterSeeds]. split.
      * intros Hall chain seed [[= -> ->]|Hin]%elem_of_cons; [rewrite Hwrap|]; eauto.
      * intros Hall chain seed Hin. apply Hall. right. exact Hin.
    + split; [discriminate|].
      intros Hall. destruct (Hall c s) as [blob Hblob]; [left|congruence].
Qed.

(** The fields of the store a run of [EncryptSeeds] ends in. *)
Lemma EncryptSeeds_fields st :
  base (EncryptSeeds st).2 = base st
  ∧ mapHDPubKeys (EncryptSeeds st).2 = mapHDPubKeys st
  ∧ mapChains (EncryptSeeds st).2 = mapChains st
  ∧ ((EncryptSeeds st).1 = Normal true ∧ mapHDMasterSeeds (EncryptSeeds st).2 = ∅
     ∨ (EncryptSeeds st).1 = Normal false
       ∧ mapHDMasterSeeds (EncryptSeeds st).2 = mapHDMasterSeeds st)
  ∧ (∀ chain, mapHDMasterSeeds st !! chain = None →
       mapHDCryptedMasterSeeds (EncryptSeeds st).2 !! chain
       = mapHDCryptedMasterSeeds st !! chain)
  ∧ ((EncryptSeeds st).1 = Normal true →
     ∀ chain seed, mapHDMasterSeeds st !! chain = Some seed →
       mapHDCryptedMasterSeeds (EncryptSeeds st).2 !! chain
       = EncryptSeed (base st) seed chain).
Proof.
  unfold EncryptSeeds, bind, gets. cbn [fst snd].
  destruct (EncryptSeeds_loop (entries (mapHDMasterSeeds st)) st) as [r st'] eqn:E.
  cbn [fst snd].
  pose proof (EncryptSeeds_loop_inv _ _ _ _ E) as (Hb & Hr & Hc).
  pose proof (EncryptSeeds_loop_others _ _ _ _ E) as (Hk & Hch).
  split; [exact Hb|]. split; [exact Hk|]. split; [exact Hch|]. split; [exact Hr|].
  split.
  - intros chain Hnone. apply Hc. rewrite elem_of_entries_keys, Hnone.
    intros [? [=]].
  - intros -> chain seed Hstored.
    destruct (EncryptSeeds_loop_wrapped _ _ _ E (NoDup_fst_entries _) chain seed)
      as (blob & Hwrap & Hblob); [apply elem_of_entries, Hstored|].
    rewrite Hblob, Hwrap. reflexivity.
Qed.

Lemma EncryptSeeds_true_iff st :
  (EncryptSeeds st).1 = Normal true
  ↔ ∀ chain seed, mapHDMasterSeeds st !! chain = Some seed →
                  is_Some (EncryptSeed (base st) seed chain).
Proof.
  unfold EncryptSeeds, bind, gets. rewrite EncryptSeeds_loop_true_iff.
  split; intros Hall chain seed Hin; apply Hall; apply elem_of_entries; exact Hin.
Qed.

(** X10: [EncryptSeeds] returns [true] exactly when the key store can
    wrap every seed of the plain map, and [false] otherwise.  Either way
    the key store below, the catalog and the chain registry are as
    before, and so are the crypted entries of chains without a plain
    seed.  After [true] the plain map is empty and the crypted map holds,
    for every chain that had a plain seed, the blob of that seed, in
    place of whatever blob it held for the chain before. *)
Theorem EncryptSeeds_exact st :
  ((EncryptSeeds st).1 = Normal true
   ↔ ∀ chain seed, mapHDMasterSeeds st !! chain = Some seed →
                   is_Some (EncryptSeed (base st) seed chain))
  ∧ ((EncryptSeeds st).1 = Normal true ∨ (EncryptSeeds st).1 = Normal false)
  ∧ base (EncryptSeeds st).2 = base st
  ∧ mapHDPubKeys (EncryptSeeds st).2 = mapHDPubKeys st
  ∧ mapChains (EncryptSeeds st).2 = mapChains st
  ∧ ((EncryptSeeds st).1 = Normal true →
     mapHDMasterSeeds (EncryptSeeds st).2 = ∅
     ∧ ∀ chain,
         mapHDCryptedMasterSeeds (EncryptSeeds st).2 !! chain
         = match mapHDMasterSeeds st !! chain with
           | Some seed => EncryptSeed (base st) seed chain
           | None => mapHDCryptedMasterSeeds st !! chain
           end).
Proof.
  pose proof (EncryptSeeds_fields st) as (Hb & Hk & Hch & Hr & Hold & Hnew).
  split; [apply EncryptSeeds_true_iff|].
  split; [destruct Hr as [[-> _]|[-> _]]; auto|].
  split; [exact Hb|]. split; [exact Hk|]. split; [exact Hch|].
  intros Htrue. split.
  - destruct Hr as [[_ E]|[E _]]; [exact E|congruence].
  - intros chain. destruct (mapHDMasterSeeds st !! chain) as [seed|] eqn:Hstored.
    + exact (Hnew Htrue chain seed Hstored).
    + exact (Hold chain Hstored).
Qed.

Lemma store_ext st1 st2 :
  base st1 = base st2 →
  mapHDMasterSeeds st1 = mapHDMasterSeeds st2 →
  mapHDCryptedMasterSeeds st1 = mapHDCryptedMasterSeeds st2 →
  mapHDPubKeys st1 = mapHDPubKeys st2 →
  mapChains st1 = mapChains st2 →
  st1 = st2.
Proof. destruct st1, st2. cbn. intros -> -> -> -> ->. reflexivity. Qed.

(** X11: [EncryptSeeds] can be run again.  After a run that gave up, a
    later run under a key store that can wrap every seed ends in the very
    store a run under that key store would have ended in had the first
    one never happened: the blobs the aborted run left behind are
    overwritten.  After a run that returned [true], a further run returns
    [true] and changes nothing. *)
Theorem EncryptSeeds_again st :
  (∀ b,
      (EncryptSeeds st).1 = Normal false →
      (EncryptSeeds (with_base b st)).1 = Normal true →
      EncryptSeeds (with_base b (EncryptSeeds st).2) = EncryptSeeds (with_base b st))
  ∧ ((EncryptSeeds st).1 = Normal true →
     EncryptSeeds (EncryptSeeds st).2 = (Normal true, (EncryptSeeds st).2)).
Proof.
  pose proof (EncryptSeeds_fields st) as (Hb & Hk & Hch & Hr & Hold & _).
  split.
  - intros b Hfalse Htrue.
    destruct Hr as [[Hr _]|[_ Hplain]]; [congruence|].
    set (st1 := (EncryptSeeds st).2) in *.
    assert (Htrue1 : (EncryptSeeds (with_base b st1)).1 = Normal true).
    { apply EncryptSeeds_true_iff.
      pose proof (proj1 (EncryptSeeds_true_iff _) Htrue) as Hall.
      cbn [with_base base mapHDMasterSeeds] in *. rewrite Hplain. exact Hall. }
    pose proof (EncryptSeeds_fields (with_base b st)) as (Hb2 & Hk2 & Hch2 & Hr2 & Hold2 & Hnew2).
    pose proof (EncryptSeeds_fields (with_base b st1)) as (Hb1 & Hk1 & Hch1 & Hr1 & Hold1 & Hnew1).
    destruct Hr2 as [[_ Hp2]|[Hr2 _]]; [|congruence].
    destruct Hr1 as [[_ Hp1]|[Hr1 _]]; [|congruence].
    rewrite (surjective_pairing (EncryptSeeds (with_base b st1))).
    rewrite (surjective_pairing (EncryptSeeds (with_base b st))).
    rewrite Htrue, Htrue1. f_equal.
    cbn [with_base base mapHDMasterSeeds mapHDCryptedMasterSeeds mapHDPubKeys mapChains] in *.
    apply store_ext; try congruence.
    apply map_eq. intros chain.
    destruct (mapHDMasterSeeds st !! chain) as [seed|] eqn:Hstored.
    + rewrite (Hnew1 Htrue1 chain seed) by (rewrite Hplain; exact Hstored).
      rewrite (Hnew2 Htrue chain seed) by exact Hstored. reflexivity.
    + rewrite Hold1 by (rewrite Hplain; exact Hstored).
      rewrite Hold2 by exact Hstored. apply Hold, Hstored.
  - intros Htrue. destruct Hr as [[_ Hempty]|[Hr _]]; [|congruence].
    set (st1 := (EncryptSeeds st).2) in *.
    unfold EncryptSeeds at 1. unfold bind, gets. rewrite Hempty.
    change (entries (∅ : gmap N (list byte))) with (@nil (N * list byte)).
    cbn. f_equal. apply store_ext; cbn; congruence.
Qed.

(** X12: encrypting is transparent for derivation.  Take a store in the
    Plaintext state with an empty crypted map; let the key store below
    switch to [IsCrypted()] with a [DecryptSeed] that inverts its
    [EncryptSeed], and let [EncryptSeeds] return [true].  Then the plain
    map is empty, [GetMasterSeed] answers for every chain what it
    answered before, and [PrivKeyDer] gives for every keypath and chain
    the outcome it gave before.  Once the key store cannot decrypt
    (locked), [GetMasterSeed] returns [false] for every chain. *)
Theorem EncryptSeeds_transparent st b :
  IsCrypted (base st) = false →
  mapHDCryptedMasterSeeds st = ∅ →
  IsCrypted b = true →
  (∀ chain seed blob,
      EncryptSeed b seed chain = Some blob → DecryptSeed b blob chain = Some seed) →
  (EncryptSeeds (with_base b st)).1 = Normal true →
  mapHDMasterSeeds (EncryptSeeds (with_base b st)).2 = ∅
  ∧ (∀ chain,
        (GetMasterSeed chain (EncryptSeeds (with_base b st)).2).1
        = (GetMasterSeed chain st).1)
  ∧ (∀ keypath chain,
        (PrivKeyDer keypath chain (EncryptSeeds (with_base b st)).2).1
        = (PrivKeyDer keypath chain st).1)
  ∧ (∀ locked chain,
        IsCrypted locked = true →
        (∀ blob id, DecryptSeed locked blob id = None) →
        (GetMasterSeed chain (with_base locked (EncryptSeeds (with_base b st)).2)).1
        = Normal None).
Proof.
  intros Hplain Hnocrypted Hcrypted Hinv Htrue.
  pose proof (EncryptSeeds_fields (with_base b st)) as (Hb & _ & _ & Hr & Hold & Hnew).
  pose proof (proj1 (EncryptSeeds_true_iff _) Htrue) as Hall.
  cbn [with_base base mapHDMasterSeeds mapHDCryptedMasterSeeds] in Hb, Hold, Hnew, Hall.
  assert (Hempty : mapHDMasterSeeds (EncryptSeeds (with_base b st)).2 = ∅)
    by (destruct Hr as [[_ E]|[E _]]; [exact E|congruence]).
  assert (Hseed : ∀ chain,
             (GetMasterSeed chain (EncryptSeeds (with_base b st)).2).1
             = (GetMasterSeed chain st).1).
  { intros chain. rewrite !GetMasterSeed_eq. cbn [fst].
    rewrite Hb, Hcrypted, Hplain.
    destruct (mapHDMasterSeeds st !! chain) as [seed|] eqn:Hstored.
    - rewrite (Hnew Htrue chain seed Hstored).
      destruct (Hall chain seed Hstored) as [blob Hwrap].
      rewrite Hwrap. cbn. rewrite (Hinv _ _ _ Hwrap). reflexivity.
    - rewrite (Hold chain Hstored), Hnocrypted, lookup_empty. reflexivity. }
  split; [exact Hempty|]. split; [exact Hseed|]. split.
  - intros keypath chain. unfold PrivKeyDer.
    apply PrivKeyDer_loop_seed_ext, Hseed.
  - intros locked chain Hl Hdec. rewrite GetMasterSeed_eq. cbn [fst with_base base].
    rewrite Hl. cbn [mapHDCryptedMasterSeeds].
    destruct (mapHDCryptedMasterSeeds _ !! chain) as [blob|]; [cbn; rewrite Hdec|];
      reflexivity.
Qed.

(** ** The keypath walk, segment by segment *)

Lemma PrivKeyDer_loop_segment fragment index rest chain parentKey st :
  segment_index fragment = Some index →
  PrivKeyDer_loop (fragment :: rest) chain parentKey st
  = PrivKeyDer_loop rest chain (CExtKey_Derive parentKey index).2 st.
Proof.
  unfold segment_index. cbn [PrivKeyDer_loop].
  destruct (back fragment) as [last|]; [|discriminate]. cbv zeta.
  destruct (String.eqb _ "m"); [discriminate|].
  destruct (String.eqb _ "c"); [discriminate|]. cbn [orb].
  destruct (ParseInt32 _) as [nIndex|]; [|discriminate].
  intros [= <-]. reflexivity.
Qed.

Lemma PrivKeyDer_loop_fold pathFragments indices chain parentKey st :
  Forall2 (fun fragment index => segment_index fragment = Some index)
          pathFragments indices →
  PrivKeyDer_loop pathFragments chain parentKey st
  = (Normal (Some (foldl (fun key index => (CExtKey_Derive key index).2)
                         parentKey indices)), st).
Proof.
  intros Hall. revert parentKey.
  induction Hall as [|fragment index rest indices Hseg _ IH]; intros parentKey.
  - reflexivity.
  - rewrite (PrivKeyDer_loop_segment _ _ _ _ _ _ Hseg). apply IH.
Qed.

(** X13: the walk is a left fold of child derivations.  When every
    segment behind [m] is a number the parser accepts (with or without
    the hardened marker) and the vault hands out the seed, [PrivKeyDer]
    returns [true] with the key reached from the master key by deriving
    at the segments' indices in order; what [CExtKey::Derive] returns at
    a step is not looked at, the walk goes on with whatever key that step
    left.  A keypath of numbers only, without [m], is walked from the
    default-constructed key and returns [true] as well. *)
Theorem PrivKeyDer_folds pathFragments indices chain st :
  Forall2 (fun fragment index => segment_index fragment = Some index)
          pathFragments indices →
  (∀ keypath masterSeed,
      split "/" keypath = "m" :: pathFragments →
      (GetMasterSeed chain st).1 = Normal (Some masterSeed) →
      PrivKeyDer keypath chain st
      = (Normal (Some (foldl (fun key index => (CExtKey_Derive key index).2)
                             (master_key masterSeed) indices)), st))
  ∧ (∀ keypath,
        split "/" keypath = pathFragments →
        PrivKeyDer keypath chain st
        = (Normal (Some (foldl (fun key index => (CExtKey_Derive key index).2)
                               CExtKey_default indices)), st)).
Proof.
  intros Hall. split.
  - intros keypath masterSeed Hsplit Hseed. unfold PrivKeyDer.
    rewrite Hsplit, PrivKeyDer_loop_master, Hseed.
    apply PrivKeyDer_loop_fold, Hall.
  - intros keypath Hsplit. unfold PrivKeyDer. rewrite Hsplit.
    apply PrivKeyDer_loop_fold, Hall.
Qed.

(** X14: the child index is computed in [unsigned int].  A segment
    without the hardened marker that parses to a negative number [n]
    derives at [2^32 + n], an index of the hardened half; a segment with
    the marker whose number is negative derives at [2^31 + n], an index
    of the non-hardened half.  For numbers from 0 on the index is the
    number, plus 2^31 under the marker. *)
Theorem PrivKeyDer_segment_index fragment last nIndex :
  back fragment = Some last →
  let harden := Ascii.eqb last "'" in
  let body := if harden then pop_back fragment else fragment in
  String.eqb body "m" = false →
  String.eqb body "c" = false →
  ParseInt32 body = Some nIndex →
  - 2 ^ 31 ≤ nIndex < 2 ^ 31 →
  (∀ rest chain parentKey st,
      PrivKeyDer_loop (fragment :: rest) chain parentKey st
      = PrivKeyDer_loop rest chain
          (CExtKey_Derive parentKey
             (if harden then 2 ^ 31 + nIndex
              else if 0 <=? nIndex then nIndex else 2 ^ 32 + nIndex)).2 st)
  ∧ (harden = false → nIndex < 0 → 2 ^ 31 ≤ 2 ^ 32 + nIndex < 2 ^ 32)
  ∧ (harden = true → nIndex < 0 → 0 ≤ 2 ^ 31 + nIndex < 2 ^ 31).
Proof.
  intros Hback harden body Hm Hc Hparse Hrange.
  split; [|split; intros; lia].
  intros rest chain parentKey st.
  apply PrivKeyDer_loop_segment. unfold segment_index.
  rewrite Hback. cbv zeta. fold harden. fold body.
  rewrite Hm, Hc, Hparse. cbn [orb]. f_equal. unfold to_uint32.
  destruct harden; [rewrite Z.mod_small by lia; reflexivity|].
  destruct (Z.leb_spec 0 nIndex).
  - rewrite Z.mod_small by lia. reflexivity.
  - replace (0 + nIndex) with (2 ^ 32 + nIndex + (-1) * 2 ^ 32) by lia.
    rewrite Z.mod_add by lia. rewrite Z.mod_small by lia. reflexivity.
Qed.

(** ** Deriving the public key at an index, continued *)

(** X15: a failing [DeriveHDPubKeyAtIndex] has already written the
    caller's record.  For a registered chain that derives privately and
    whose template starts with [m/], and an index below 2^31: when the
    vault does not hand out the seed (none stored, or it cannot be
    decrypted) the call throws "Private Key Derivation failed!", the
    store is unchanged, and the caller's record has its keypath replaced
    by the path that was tried, its other members untouched. *)
Theorem DeriveHDPubKeyAtIndex_without_seed
    chain hdChain template nIndex isInternal st out :
  mapChains st !! chain = Some hdChain →
  0 ≤ nIndex < 2 ^ 31 →
  derives_privately hdChain isInternal = true →
  keypathTemplate hdChain = "m/" ++ template →
  (GetMasterSeed chain st).1 = Normal None →
  DeriveHDPubKeyAtIndex chain nIndex isInternal (st, out) =
  (Throw "CHDKeyStore::DeriveHDPubKeyAtIndex(): Private Key Derivation failed!",
   (st, {| nVersion := nVersion out; pubkey := pubkey out; nChild := nChild out;
           chainID := chainID out;
           keypath := "m/" ++ materialize template isInternal
                      ++ "/" ++ itostr nIndex ++ "'";
           internal := internal out |})).
Proof.
  intros Hchain Hn Hmode Htemplate Hseed.
  assert (Hlt : (0x80000000 <=? nIndex) = false) by (apply Z.leb_gt; lia).
  rewrite DeriveHDPubKeyAtIndex_eq, Hchain, Hlt. cbv zeta.
  rewrite Hmode, Htemplate, to_int32_small by exact Hn.
  change (materialize ("m/" ++ template) isInternal)
    with ("m/" ++ materialize template isInternal).
  set (tail := materialize template isInternal ++ "/" ++ itostr nIndex ++ "'").
  change (("m/" ++ materialize template isInternal) ++ "/" ++ itostr nIndex ++ "'")
    with ("m/" ++ tail).
  unfold PrivKeyDer.
  change (split "/" ("m/" ++ tail)) with ("m" :: split "/" tail).
  rewrite PrivKeyDer_loop_master, Hseed. reflexivity.
Qed.

Lemma append_empty_r (s : string) : s ++ EmptyString = s.
Proof.
  induction s as [|ch s IH]; [reflexivity|].
  change (String ch s ++ EmptyString) with (String ch (s ++ EmptyString)).
  rewrite IH. reflexivity.
Qed.

Lemma no_switch_app a b : no_switch (a ++ b) = no_switch a && no_switch b.
Proof.
  induction a as [|ch a IH]; [reflexivity|].
  change (String ch a ++ b) with (String ch (a ++ b)).
  cbn [no_switch]. rewrite IH. apply andb_assoc.
Qed.

Lemma no_switch_materialize template isInternal :
  no_switch (materialize template isInternal) = true.
Proof.
  induction template as [|ch rest IH]; [reflexivity|].
  cbn [materialize no_switch]. rewrite IH.
  destruct (Ascii.eqb ch "c") eqn:E; [destruct isInternal; reflexivity|].
  rewrite E. reflexivity.
Qed.

Lemma materialize_verbatim template isInternal :
  no_switch template = true → materialize template isInternal = template.
Proof.
  induction template as [|ch rest IH]; [reflexivity|].
  cbn [materialize no_switch]. intros [Hch Hrest]%andb_true_iff.
  rewrite (IH Hrest). destruct (Ascii.eqb ch "c"); [discriminate|reflexivity].
Qed.

Lemma no_switch_itostr n : no_switch (itostr n) = true.
Proof.
  assert (Hu : ∀ d, no_switch (NilEmpty.string_of_uint d) = true)
    by (induction d; cbn; auto).
  unfold itostr, NilZero.string_of_int, NilZero.string_of_uint.
  destruct (Z.to_int n) as [d|d]; destruct d; try reflexivity;
    cbn [no_switch]; apply (Hu (_ d)) || (cbn; apply Hu).
Qed.

(** X16: the keypath [DeriveHDPubKeyAtIndex] writes never contains the
    letter [c], whatever the template and however the call ends, so a
    later walk along it does not stop at the chain switch; and a
    template without [c] is taken letter for letter, with the index
    appended (and the hardened marker when the chain derives
    privately). *)
Theorem DeriveHDPubKeyAtIndex_keypath chain hdChain nIndex isInternal st out :
  mapChains st !! chain = Some hdChain →
  0 ≤ nIndex < 2 ^ 31 →
  no_switch (keypath (DeriveHDPubKeyAtIndex chain nIndex isInternal (st, out)).2.2) = true
  ∧ (no_switch (keypathTemplate hdChain) = true →
     keypath (DeriveHDPubKeyAtIndex chain nIndex isInternal (st, out)).2.2
     = keypathTemplate hdChain ++ "/" ++ itostr nIndex
       ++ (if derives_privately hdChain isInternal then "'" else EmptyString)).
Proof.
  intros Hchain Hn.
  assert (Hlt : (0x80000000 <=? nIndex) = false) by (apply Z.leb_gt; lia).
  assert (Hpath : keypath (DeriveHDPubKeyAtIndex chain nIndex isInternal (st, out)).2.2
                  = materialize (keypathTemplate hdChain) isInternal ++ "/" ++ itostr nIndex
                    ++ (if derives_privately hdChain isInternal then "'" else EmptyString)).
  { rewrite DeriveHDPubKeyAtIndex_eq, Hchain, Hlt. cbv zeta.
    rewrite to_int32_small by exact Hn.
    destruct (derives_privately hdChain isInternal).
    - destruct (PrivKeyDer _ chain st).1 as [[extKey|]|what|]; reflexivity.
    - rewrite append_empty_r. destruct (CExtPubKey_Derive _ nIndex); reflexivity. }
  rewrite Hpath. split.
  - rewrite !no_switch_app, no_switch_materialize, no_switch_itostr.
    destruct (derives_privately hdChain isInternal); reflexivity.
  - intros Hverbatim. rewrite (materialize_verbatim _ _ Hverbatim). reflexivity.
Qed.

(** X17: public derivation needs no seed.  For a registered chain that
    passes [CHDChain::IsValid] with [usePubCKD] set, deriving on the
    external side never walks a keypath: the outcome and the record
    handed back are those of [CExtPubKey::Derive] on the external root
    and are the same in every store that has the chain registered,
    whatever its seed maps hold and whether or not its key store can
    decrypt. *)
Theorem DeriveHDPubKeyAtIndex_public_only chain hdChain nIndex st1 st2 out :
  CHDChain_IsValid hdChain = true →
  usePubCKD hdChain = true →
  mapChains st1 !! chain = Some hdChain →
  mapChains st2 !! chain = Some hdChain →
  (DeriveHDPubKeyAtIndex chain nIndex false (st1, out)).1
  = (DeriveHDPubKeyAtIndex chain nIndex false (st2, out)).1
  ∧ (DeriveHDPubKeyAtIndex chain nIndex false (st1, out)).2.2
    = (DeriveHDPubKeyAtIndex chain nIndex false (st2, out)).2.2
  ∧ (DeriveHDPubKeyAtIndex chain nIndex false (st1, out)).1 ≠ OutOfBounds
  ∧ (0 ≤ nIndex < 2 ^ 31 →
     ∀ childKey, CExtPubKey_Derive (externalPubKey hdChain) nIndex = Some childKey →
       (DeriveHDPubKeyAtIndex chain nIndex false (st1, out)).1 = Normal true
       ∧ pubkey (DeriveHDPubKeyAtIndex chain nIndex false (st1, out)).2.2
         = CExtPubKey_pubkey childKey).
Proof.
  intros Hvalid Hpub Hc1 Hc2.
  assert (Hmode : derives_privately hdChain false = false).
  { unfold derives_privately. unfold CHDChain_IsValid in Hvalid.
    rewrite Hpub in Hvalid. cbn in Hvalid |- *.
    destruct (CPubKey_IsValid (CExtPubKey_pubkey (externalPubKey hdChain)));
      [reflexivity|discriminate]. }
  rewrite !DeriveHDPubKeyAtIndex_eq, Hc1, Hc2.
  destruct (0x80000000 <=? nIndex) eqn:Hlt.
  - cbn [fst snd]. split; [reflexivity|]. split; [reflexivity|].
    split; [discriminate|]. intros Hn. apply Z.leb_le in Hlt. lia.
  - cbv zeta. rewrite Hmode.
    destruct (CExtPubKey_Derive (externalPubKey hdChain) nIndex) as [childKey|];
      cbn [fst snd]; (split; [reflexivity|]); (split; [reflexivity|]);
      (split; [discriminate|]); intros _ childKey' [= <-].
    split; reflexivity.
Qed.

(** ** The next unused child index, continued *)

(** What a run of [GetNextChildIndex] returns: every index below the
    result is used, and the result is unused unless the whole range is
    used, in which case it is 0. *)
Lemma GetNextChildIndex_run chain isInternal st :
  ∃ r, GetNextChildIndex chain isInternal st = (Normal r, st)
       ∧ 0 ≤ r < 2 ^ 31
       ∧ (∀ j, 0 ≤ j < r → index_used st chain isInternal j)
       ∧ (¬ index_used st chain isInternal r
          ∨ r = 0 ∧ ∀ i, 0 ≤ i < 2 ^ 31 → index_used st chain isInternal i).
Proof.
  unfold GetNextChildIndex, bind, gets.
  set (vIndices := collect_indices chain isInternal (mapHDPubKeys st)).
  set (body := fun i : Z => if bool_decide (i ∈ vIndices) then None else Some i).
  assert (Hbody : ∀ k, body k = None ↔ index_used st chain isInternal k).
  { intros k. unfold body. rewrite <- elem_of_collect_indices. fold vIndices.
    destruct (bool_decide_reflect (k ∈ vIndices)); split; auto; discriminate || contradiction. }
  pose proof (for_upto_spec body 2147483648 0) as Hloop. cbn [fst snd].
  destruct (for_upto 2147483648 body 0) as [r|i'].
  - destruct Hloop as (j & Hj & Hr & Hbefore).
    assert (j = r) as -> by (unfold body in Hr; destruct (bool_decide _); congruence).
    exists r. split; [reflexivity|]. split; [lia|]. split.
    + intros k Hk. apply Hbody, Hbefore. lia.
    + left. intros Hused. apply Hbody in Hused. congruence.
  - destruct Hloop as [_ Hall]. exists 0. split; [reflexivity|]. split; [lia|].
    split; [intros j Hj; lia|]. right. split; [reflexivity|].
    intros i Hi. apply Hbody, Hall. lia.
Qed.

(** X18: [GetNextChildIndex] looks at nothing but the indices below
    2^31 that records of the chain and side asked for occupy: two
    catalogs that agree on those give the same result, so records of
    other chains, of the other side, or with [nChild] from 2^31 on make
    no difference; without any record of the chain and side the result
    is 0. *)
Theorem GetNextChildIndex_depends_on chain isInternal st1 st2 :
  (∀ i, 0 ≤ i < 2 ^ 31 →
        (index_used st1 chain isInternal i ↔ index_used st2 chain isInternal i)) →
  (GetNextChildIndex chain isInternal st1).1 = (GetNextChildIndex chain isInternal st2).1
  ∧ ((∀ i, 0 ≤ i < 2 ^ 31 → ¬ index_used st1 chain isInternal i) →
     (GetNextChildIndex chain isInternal st1).1 = Normal 0).
Proof.
  intros Hsame.
  destruct (GetNextChildIndex_run chain isInternal st1) as (r1 & E1 & Hr1 & Hb1 & Hf1).
  destruct (GetNextChildIndex_run chain isInternal st2) as (r2 & E2 & Hr2 & Hb2 & Hf2).
  rewrite E1, E2. cbn [fst]. split.
  - f_equal.
    destruct (Z.lt_trichotomy r1 r2) as [Hlt|[Heq|Hgt]]; [exfalso|exact Heq|exfalso].
    + assert (Hu : index_used st1 chain isInternal r1)
        by (apply Hsame; [lia|apply Hb2; lia]).
      destruct Hf1 as [Hf1|[_ Hall]]; [contradiction|].
      destruct Hf2 as [Hf2|[-> _]]; [|lia].
      apply Hf2, Hsame; [lia|apply Hall; lia].
    + assert (Hu : index_used st2 chain isInternal r2)
        by (apply Hsame; [lia|apply Hb1; lia]).
      destruct Hf2 as [Hf2|[_ Hall]]; [contradiction|].
      destruct Hf1 as [Hf1|[-> _]]; [|lia].
      apply Hf1, Hsame; [lia|apply Hall; lia].
  - intros Hnone. f_equal.
    destruct (decide (r1 = 0)) as [->|Hne]; [reflexivity|].
    exfalso. apply (Hnone 0); [lia|apply Hb1; lia].
Qed.

(** X19: allocating an index.  Let [GetNextChildIndex] return an unused
    index [r], and let the caller load a record of that chain and side
    with [nChild = r] whose public key id is new to the catalog.  Then
    [r] is used, the indices used before still are, and the next call
    returns the smallest unused index above [r] if the range has one
    left. *)
Theorem GetNextChildIndex_after_load chain isInternal st record r :
  (GetNextChildIndex chain isInternal st).1 = Normal r →
  ¬ index_used st chain isInternal r →
  chainID record = chain →
  internal record = isInternal →
  nChild record = r →
  mapHDPubKeys st !! CPubKey_GetID (pubkey record) = None →
  (∀ i, index_used (LoadHDPubKey record st).2 chain isInternal i
        ↔ index_used st chain isInternal i ∨ i = r)
  ∧ ∃ r', (GetNextChildIndex chain isInternal (LoadHDPubKey record st).2).1 = Normal r'
          ∧ ∀ i, 0 ≤ i < 2 ^ 31 →
                 ¬ index_used (LoadHDPubKey record st).2 chain isInternal i →
                 r < r' ≤ i
                 ∧ ¬ index_used (LoadHDPubKey record st).2 chain isInternal r'.
Proof.
  intros Hrun Hfree Hc Hi Hn Hfresh.
  set (st' := (LoadHDPubKey record st).2).
  assert (Hused : ∀ i, index_used st' chain isInternal i
                       ↔ index_used st chain isInternal i ∨ i = r).
  { intros i. unfold index_used. subst st'. cbn. split.
    - intros (keyID & rec & Hrec & Hrc & Hri & Hrn).
      destruct (decide (CPubKey_GetID (pubkey record) = keyID)) as [<-|Hne].
      + rewrite lookup_insert_eq in Hrec. injection Hrec as <-. right. congruence.
      + rewrite lookup_insert_ne in Hrec by exact Hne. left. eauto 10.
    - intros [(keyID & rec & Hrec & Hrest)| ->].
      + exists keyID, rec. split; [|exact Hrest].
        rewrite lookup_insert_ne; [exact Hrec|]. congruence.
      + exists (CPubKey_GetID (pubkey record)), record.
        rewrite lookup_insert_eq. auto. }
  split; [exact Hused|].
  destruct (GetNextChildIndex_run chain isInternal st) as (r0 & E0 & Hr0 & Hb0 & _).
  rewrite E0 in Hrun. injection Hrun as ->.
  destruct (GetNextChildIndex_run chain isInternal st') as (r' & E' & Hr' & Hb' & Hf').
  exists r'. split; [rewrite E'; reflexivity|].
  intros i Hirange Hifree.
  destruct Hf' as [Hf'|[_ Hall]]; [|exfalso; apply Hifree, Hall, Hirange].
  assert (Hr_used : index_used st' chain isInternal r) by (apply Hused; auto).
  split; [|exact Hf'].
  split.
  - destruct (Z.lt_trichotomy r r') as [Hlt|[Heq|Hgt]]; [exact Hlt|subst; contradiction|].
    exfalso. apply Hf', Hused. left. apply Hb0. lia.
  - destruct (decide (r' ≤ i)); [assumption|].
    exfalso. apply Hifree, Hb'. lia.
Qed.

(** ** How [DeriveHDPubKeyAtIndex] and the walk end *)

(** X20: [DeriveHDPubKeyAtIndex] returns [false] exactly when the chain
    is not registered.  With a registered chain it returns [true],
    throws, or stops out of bounds; it stops out of bounds only when the
    chain derives privately, and it returns [true] only for an index
    below 2^31, with the record's [chainID], [nChild] and [internal] set
    to the arguments. *)
Theorem DeriveHDPubKeyAtIndex_exits chain nIndex isInternal st out :
  ((DeriveHDPubKeyAtIndex chain nIndex isInternal (st, out)).1 = Normal false
   ↔ mapChains st !! chain = None)
  ∧ ((DeriveHDPubKeyAtIndex chain nIndex isInternal (st, out)).1 = OutOfBounds →
     ∃ hdChain, mapChains st !! chain = Some hdChain
                ∧ derives_privately hdChain isInternal = true)
  ∧ ((DeriveHDPubKeyAtIndex chain nIndex isInternal (st, out)).1 = Normal true →
     nIndex < 2 ^ 31
     ∧ chainID (DeriveHDPubKeyAtIndex chain nIndex isInternal (st, out)).2.2 = chain
     ∧ nChild (DeriveHDPubKeyAtIndex chain nIndex isInternal (st, out)).2.2 = nIndex
     ∧ internal (DeriveHDPubKeyAtIndex chain nIndex isInternal (st, out)).2.2
       = isInternal).
Proof.
  rewrite DeriveHDPubKeyAtIndex_eq.
  destruct (mapChains st !! chain) as [hdChain|].
  2:{ cbn. split; [split; reflexivity|]. split; discriminate. }
  destruct (Z.leb_spec 0x80000000 nIndex) as [Hge|Hlt].
  { cbn. split; [split; discriminate|]. split; discriminate. }
  cbv zeta. destruct (derives_privately hdChain isInternal) eqn:Hmode.
  - destruct (PrivKeyDer _ chain st).1 as [[extKey|]|what|]; cbn [fst snd].
    + split; [split; discriminate|]. split; [discriminate|].
      intros _. split; [lia|]. repeat split.
    + split; [split; discriminate|]. split; discriminate.
    + split; [split; discriminate|]. split; discriminate.
    + split; [split; discriminate|]. split; [|discriminate].
      intros _. exists hdChain. split; [reflexivity|exact Hmode].
  - destruct (CExtPubKey_Derive _ nIndex) as [childKey|]; cbn [fst snd].
    + split; [split; discriminate|]. split; [discriminate|].
      intros _. split; [lia|]. repeat split.
    + split; [split; discriminate|]. split; discriminate.
Qed.

(** X21: a hardened marker on the master segment is dropped before the
    segment is compared, so [m''] is walked like [m]: a keypath that
    starts with the one gives the outcome of the keypath that starts with
    the other. *)
Theorem PrivKeyDer_hardened_master keypath chain st :
  PrivKeyDer ("m'/" ++ keypath) chain st = PrivKeyDer ("m/" ++ keypath) chain st
  ∧ PrivKeyDer "m'" chain st = PrivKeyDer "m" chain st.
Proof.
  unfold PrivKeyDer.
  change (split "/" ("m'/" ++ keypath)) with ("m'" :: split "/" keypath).
  change (split "/" ("m/" ++ keypath)) with ("m" :: split "/" keypath).
  split; reflexivity.
Qed.

(** X22: [AddChain] registers a chain whether or not it passes
    [CHDChain::IsValid].  A chain that went through [SetNull] does not
    pass it; once such a chain is registered (under the null id) and
    derives privately, [DeriveHDPubKeyAtIndex] for an index below 2^31
    builds a keypath that starts with a slash and the walk along it
    stops at the out-of-bounds read of its empty first segment. *)
Theorem DeriveHDPubKeyAtIndex_null_chain hdChain nIndex isInternal st out :
  0 ≤ nIndex < 2 ^ 31 →
  derives_privately (CHDChain_SetNull hdChain) isInternal = true →
  CHDChain_IsValid (CHDChain_SetNull hdChain) = false
  ∧ (AddChain (CHDChain_SetNull hdChain) st).1 = Normal true
  ∧ (DeriveHDPubKeyAtIndex 0%N nIndex isInternal
       ((AddChain (CHDChain_SetNull hdChain) st).2, out)).1 = OutOfBounds.
Proof.
  intros Hn Hmode. split; [reflexivity|]. split; [reflexivity|].
  rewrite DeriveHDPubKeyAtIndex_eq.
  cbn [AddChain bind modify ret fst snd set_mapChains mapChains CHDChain_SetNull
       chain_chainID].
  rewrite lookup_insert_eq.
  assert (Hlt : (0x80000000 <=? nIndex) = false) by (apply Z.leb_gt; lia).
  rewrite Hlt. cbv zeta. rewrite Hmode.
  cbn [keypathTemplate CHDChain_SetNull materialize].
  unfold PrivKeyDer.
  change (split "/" (EmptyString ++ "/" ++ itostr (to_int32 nIndex) ++ "'"))
    with (EmptyString :: split "/" (itostr (to_int32 nIndex) ++ "'")).
  reflexivity.
Qed.

End FacadeProperties.

(** * The store at work

    The statements above, applied to the stores of [Demo]. *)

Import Demo.
Local Open Scope Z_scope.

Lemma demo_roundtrip (b : demo_crypto) chain seed blob :
  EncryptSeed b seed chain = Some blob → DecryptSeed b blob chain = Some seed.
Proof.
  cbn. unfold demo_encrypt, demo_decrypt.
  destruct (vMasterKey b) as [k|]; [|discriminate].
  destruct seed as [|x seed]; [discriminate|].
  intros [= <-]. rewrite (Byte.byte_dec_lb (x:=k) eq_refl). reflexivity.
Qed.

Lemma PrivKeyDer_seed_by_length_witness :
  ((GetMasterSeed 7%N (store_with_seed (zeros 74))).1
     = Normal (Some (zeros 74))
   ∧ PrivKeyDer "m" 7%N (store_with_seed (zeros 74))
     = (Normal (Some (Decoded (zeros 74))), store_with_seed (zeros 74)))
  ∧ ((GetMasterSeed 7%N (store_with_seed (zeros 73))).1
       = Normal (Some (zeros 73))
     ∧ PrivKeyDer "m" 7%N (store_with_seed (zeros 73))
       = (Normal (Some (FromSeed (zeros 73))), store_with_seed (zeros 73)))
  ∧ ((GetMasterSeed 7%N (store_with_seed (zeros 75))).1
       = Normal (Some (zeros 75))
     ∧ PrivKeyDer "m" 7%N (store_with_seed (zeros 75))
       = (Normal (Some (FromSeed (zeros 75))), store_with_seed (zeros 75))).
Proof.
  split; [|split].
  - split; [reflexivity|].
    apply (PrivKeyDer_seed_by_length 7%N (store_with_seed (zeros 74))
             (zeros 74)); reflexivity.
  - split; [reflexivity|].
    apply (PrivKeyDer_seed_by_length 7%N (store_with_seed (zeros 73))
             (zeros 73)); [reflexivity|]. cbn. lia.
  - split; [reflexivity|].
    apply (PrivKeyDer_seed_by_length 7%N (store_with_seed (zeros 75))
             (zeros 75)); [reflexivity|]. cbn. lia.
Defined.

Lemma PrivKeyDer_switch_and_master_witness :
  split "/" "m/0/c/1" = (["m"; "0"] ++ "c" :: ["1"])%list
  ∧ split "/" "m/0/m/1'" = (["m"; "0"] ++ "m" :: ["1'"])%list
  ∧ (PrivKeyDer "m/0/c/1" 1%N (store plain_crypto)
       = (Normal None, store plain_crypto)
     ∨ PrivKeyDer "m/0/c/1" 1%N (store plain_crypto)
       = (OutOfBounds, store plain_crypto))
  ∧ (PrivKeyDer "m/0/m/1'" 1%N (store plain_crypto)
       = (Normal None, store plain_crypto)
     ∨ PrivKeyDer "m/0/m/1'" 1%N (store plain_crypto)
       = (OutOfBounds, store plain_crypto)
     ∨ PrivKeyDer "m/0/m/1'" 1%N (store plain_crypto)
       = PrivKeyDer_loop ("m" :: ["1'"]) 1%N CExtKey_default (store plain_crypto)).
Proof.
  split; [reflexivity|]. split; [reflexivity|].
  pose proof (PrivKeyDer_switch_and_master 1%N (store plain_crypto)) as (_ & _ & Hc & Hm).
  split.
  - exact (Hc "m/0/c/1" ["m"; "0"] ["1"] eq_refl).
  - exact (Hm "m/0/m/1'" ["m"; "0"] ["1'"] eq_refl).
Defined.

(** Against C6 as the spec has it: [m] at position 2 does not fail, the
    walk starts over from the master key. *)
Lemma PrivKeyDer_master_again :
  (PrivKeyDer "m/0/m" 1%N (store plain_crypto)).1 = Normal (Some master)
  ∧ (PrivKeyDer "m/0/m/1'" 1%N (store plain_crypto)).1
    = Normal (Some (Child master 0x80000001)).
Proof. split; reflexivity. Qed.

Lemma PrivKeyDer_empty_fragment_witness :
  EmptyString ∈ split "/" "m//0"
  ∧ split "/" "m//0" = (["m"] ++ EmptyString :: ["0"])%list
  ∧ (PrivKeyDer_loop ["m"] 1%N CExtKey_default (store plain_crypto)).1
    = Normal (Some master)
  ∧ (PrivKeyDer_loop ["m"] 2%N CExtKey_default (store plain_crypto)).1 = Normal None
  ∧ PrivKeyDer "m//0" 1%N (store plain_crypto) = (OutOfBounds, store plain_crypto)
  ∧ PrivKeyDer "m//0" 2%N (store plain_crypto) = (Normal None, store plain_crypto).
Proof.
  assert (Hin : EmptyString ∈ split "/" "m//0") by (cbn; rewrite !elem_of_cons; auto).
  assert (Hsplit : split "/" "m//0" = (["m"] ++ EmptyString :: ["0"])%list)
    by reflexivity.
  assert (Hseed : (PrivKeyDer_loop ["m"] 1%N CExtKey_default (store plain_crypto)).1
                  = Normal (Some master)) by reflexivity.
  assert (Hnone : (PrivKeyDer_loop ["m"] 2%N CExtKey_default (store plain_crypto)).1
                  = Normal None) by reflexivity.
  split; [exact Hin|]. split; [exact Hsplit|]. split; [exact Hseed|].
  split; [exact Hnone|].
  destruct (PrivKeyDer_empty_fragment "m//0" 1%N (store plain_crypto) Hin)
    as (_ & _ & _ & Hreached).
  destruct (PrivKeyDer_empty_fragment "m//0" 2%N (store plain_crypto) Hin)
    as (_ & _ & _ & Hearlier).
  split.
  - apply (Hreached ["m"] ["0"] Hsplit). exists master. exact Hseed.
  - apply (Hearlier ["m"] ["0"] Hsplit). exact Hnone.
Defined.

(** Against C10 as it is worded: these keypaths have an empty segment,
    yet the walk returns [false] at the segment before it ([c], or [m]
    for a chain without a seed) and the empty fragment is never read. *)
Lemma PrivKeyDer_false_before_empty_fragment :
  EmptyString ∈ split "/" "c/"
  ∧ PrivKeyDer "c/" 1%N (store plain_crypto) = (Normal None, store plain_crypto)
  ∧ (PrivKeyDer "c/" 1%N (store plain_crypto)).1 ≠ OutOfBounds
  ∧ EmptyString ∈ split "/" "m//0"
  ∧ (PrivKeyDer "m//0" 2%N (store plain_crypto)).1 = Normal None.
Proof.
  split; [cbn; rewrite !elem_of_cons; auto|]. split; [reflexivity|].
  split; [discriminate|]. split; [cbn; rewrite !elem_of_cons; auto|]. reflexivity.
Qed.

(** The empty keypath, a trailing slash and a doubled slash, on a store
    that has the seed; and a path that gives up before its empty
    segment is reached. *)
Lemma empty_fragment_walks :
  (PrivKeyDer EmptyString 1%N (store plain_crypto)).1 = OutOfBounds
  ∧ (PrivKeyDer "m/" 1%N (store plain_crypto)).1 = OutOfBounds
  ∧ (PrivKeyDer "m//0" 1%N (store plain_crypto)).1 = OutOfBounds
  ∧ (PrivKeyDer "c/" 1%N (store plain_crypto)).1 = Normal None
  ∧ (PrivKeyDer "m//0" 2%N (store plain_crypto)).1 = Normal None.
Proof. repeat split; reflexivity. Qed.

Lemma AddMasterSeed_GetMasterSeed_witness :
  IsCrypted (base (empty_store plain_crypto)) = false
  ∧ last_inserted 1%N [(1%N, zeros 16); (2%N, zeros 32); (1%N, seed16)] = Some seed16
  ∧ ∃ st', AddMasterSeeds [(1%N, zeros 16); (2%N, zeros 32); (1%N, seed16)]
                          (empty_store plain_crypto) = (Normal true, st')
           ∧ IsCrypted (base st') = false
           ∧ GetMasterSeed 1%N st' = (Normal (Some seed16), st').
Proof.
  split; [reflexivity|]. split; [reflexivity|].
  apply (AddMasterSeed_GetMasterSeed (empty_store plain_crypto)); reflexivity.
Defined.

Lemma EncryptSeeds_then_decrypt_witness :
  (∀ chain seed blob,
      EncryptSeed (base store_to_encrypt) seed chain = Some blob →
      DecryptSeed (base store_to_encrypt) blob chain = Some seed)
  ∧ EncryptSeeds store_to_encrypt = (Normal true, (EncryptSeeds store_to_encrypt).2)
  ∧ mapHDMasterSeeds store_to_encrypt !! 1%N = Some seed16
  ∧ mapHDMasterSeeds (EncryptSeeds store_to_encrypt).2 = ∅
  ∧ ∃ blob,
      mapHDCryptedMasterSeeds (EncryptSeeds store_to_encrypt).2 !! 1%N = Some blob
      ∧ DecryptSeed (base (EncryptSeeds store_to_encrypt).2) blob 1%N = Some seed16
      ∧ GetCryptedMasterSeed 1%N (EncryptSeeds store_to_encrypt).2
        = (Normal (if IsCrypted (base store_to_encrypt) then Some blob else None),
           (EncryptSeeds store_to_encrypt).2).
Proof.
  assert (Hok : (EncryptSeeds store_to_encrypt).1 = Normal true)
    by (vm_compute; reflexivity).
  assert (Hrun : EncryptSeeds store_to_encrypt
                 = (Normal true, (EncryptSeeds store_to_encrypt).2))
    by (rewrite <- Hok; apply surjective_pairing).
  assert (Hstored : mapHDMasterSeeds store_to_encrypt !! 1%N = Some seed16)
    by reflexivity.
  split; [exact (demo_roundtrip _)|]. split; [exact Hrun|]. split; [exact Hstored|].
  destruct (EncryptSeeds_then_decrypt store_to_encrypt _
              (demo_roundtrip _) Hrun) as (Hempty & _ & Hall).
  split; [exact Hempty|exact (Hall 1%N seed16 Hstored)].
Defined.

(** Against C5 as the spec has it: [EncryptSeeds] succeeds on a store
    whose key store does not report [IsCrypted()], and
    [GetCryptedMasterSeed] then returns [false] for a chain whose seed was
    stored and is now wrapped in the crypted map. *)
Lemma EncryptSeeds_not_crypted :
  (EncryptSeeds (store keyed_crypto)).1 = Normal true
  ∧ mapHDMasterSeeds (store keyed_crypto) !! 1%N = Some seed16
  ∧ mapHDCryptedMasterSeeds (EncryptSeeds (store keyed_crypto)).2 !! 1%N
    = Some (Byte.x2a :: seed16)
  ∧ (GetCryptedMasterSeed 1%N (EncryptSeeds (store keyed_crypto)).2).1 = Normal None.
Proof. repeat split; vm_compute; reflexivity. Qed.

Lemma seed_maps_disjointness_witness :
  seeds_disjoint (store plain_crypto)
  ∧ mapHDMasterSeeds (store plain_crypto) !! 2%N = None
  ∧ mapHDCryptedMasterSeeds (store plain_crypto) !! 1%N = None
  ∧ seeds_disjoint (AddCryptedMasterSeed 2%N [Byte.x2a] (store plain_crypto)).2
  ∧ seeds_disjoint (AddMasterSeed 1%N seed16 (store plain_crypto)).2.
Proof.
  assert (Hd : seeds_disjoint (store plain_crypto)).
  { apply seeds_disjoint_alt. intros chain. right. reflexivity. }
  split; [exact Hd|]. split; [reflexivity|]. split; [reflexivity|].
  destruct (seed_maps_disjointness (store plain_crypto)) as (_ & Hadd & Hcrypted & _).
  split.
  - apply Hcrypted; [exact Hd|reflexivity].
  - apply Hadd; [exact Hd|reflexivity].
Defined.

(** Against C2 as the spec has it: [AddCryptedMasterSeed] for a chain
    whose seed is in the plain map puts the chain into both maps. *)
Lemma AddCryptedMasterSeed_overlap :
  seeds_disjoint (store plain_crypto)
  ∧ (AddCryptedMasterSeed 1%N [Byte.x2a] (store plain_crypto)).1 = Normal true
  ∧ ¬ seeds_disjoint (AddCryptedMasterSeed 1%N [Byte.x2a] (store plain_crypto)).2.
Proof.
  split; [apply seeds_disjoint_alt; intros chain; right; reflexivity|].
  split; [reflexivity|].
  intros Hd.
  destruct (proj1 (seeds_disjoint_alt _) Hd 1%N) as [E|E]; vm_compute in E; discriminate.
Qed.

(** The abort within [EncryptSeeds], which C2 names: the seed of chain 1
    is wrapped, the seed of chain 2 is not, the call returns [false] with
    the plain map untouched, and chain 1 is in both maps. *)
Lemma EncryptSeeds_abort_overlap :
  seeds_disjoint store_half_wrappable
  ∧ (EncryptSeeds store_half_wrappable).1 = Normal false
  ∧ mapHDMasterSeeds (EncryptSeeds store_half_wrappable).2 !! 1%N = Some seed16
  ∧ mapHDCryptedMasterSeeds (EncryptSeeds store_half_wrappable).2 !! 1%N
    = Some (Byte.x2a :: seed16)
  ∧ ¬ seeds_disjoint (EncryptSeeds store_half_wrappable).2.
Proof.
  assert (H1 : mapHDMasterSeeds (EncryptSeeds store_half_wrappable).2 !! 1%N
               = Some seed16) by (vm_compute; reflexivity).
  assert (H2 : mapHDCryptedMasterSeeds (EncryptSeeds store_half_wrappable).2 !! 1%N
               = Some (Byte.x2a :: seed16)) by (vm_compute; reflexivity).
  split; [apply seeds_disjoint_alt; intros chain; right; reflexivity|].
  split; [vm_compute; reflexivity|]. split; [exact H1|]. split; [exact H2|].
  intros Hd.
  destruct (proj1 (seeds_disjoint_alt _) Hd 1%N) as [E|E]; congruence.
Qed.

Lemma GetNextChildIndex_least_witness :
  (∀ i, index_used (catalog [0; 2]) 1%N false i ↔ i = 0 ∨ i = 2)
  ∧ (∀ i, index_used (catalog [0; 1; 2; 100]) 1%N false i
          ↔ i = 0 ∨ i = 1 ∨ i = 2 ∨ i = 100)
  ∧ (GetNextChildIndex 1%N false (catalog [0; 2])).1 = Normal 1
  ∧ (GetNextChildIndex 1%N false (catalog [0; 1; 2; 100])).1 = Normal 3.
Proof.
  assert (Ha : ∀ i, index_used (catalog [0; 2]) 1%N false i ↔ i = 0 ∨ i = 2).
  { intros i. rewrite <- elem_of_collect_indices.
    replace (collect_indices 1%N false (mapHDPubKeys (catalog [0; 2])))
      with [0; 2] by (vm_compute; reflexivity).
    rewrite !elem_of_cons, elem_of_nil. tauto. }
  assert (Hb : ∀ i, index_used (catalog [0; 1; 2; 100]) 1%N false i
                    ↔ i = 0 ∨ i = 1 ∨ i = 2 ∨ i = 100).
  { intros i. rewrite <- elem_of_collect_indices.
    replace (collect_indices 1%N false (mapHDPubKeys (catalog [0; 1; 2; 100])))
      with [0; 1; 2; 100] by (vm_compute; reflexivity).
    rewrite !elem_of_cons, elem_of_nil. tauto. }
  split; [exact Ha|]. split; [exact Hb|]. split.
  - destruct (GetNextChildIndex_least 1%N false (catalog [0; 2]))
      as (r & Hrun & _ & _ & Hr & _).
    rewrite Hrun, (Hr Ha). reflexivity.
  - destruct (GetNextChildIndex_least 1%N false (catalog [0; 1; 2; 100]))
      as (r & Hrun & _ & _ & _ & Hr).
    rewrite Hrun, (Hr Hb). reflexivity.
Defined.

Lemma DeriveHDPubKeyAtIndex_modes_witness :
  mapChains (store plain_crypto) !! 1%N = Some chain1
  ∧ mapChains (store plain_crypto) !! 3%N = Some chain3
  ∧ mapChains (store plain_crypto) !! 2%N = Some chain2
  ∧ 0 ≤ 0 < 2 ^ 31
  ∧ 0 ≤ 5 < 2 ^ 31
  ∧ 0 ≤ 7 < 2 ^ 31
  ∧ DeriveHDPubKeyAtIndex 1%N 0 false (store plain_crypto, null_pubkey)
    = (Normal true,
       (store plain_crypto,
        {| nVersion := 1; pubkey := Child (Child account 0) 0; nChild := 0;
           chainID := 1%N; keypath := "m/0'/0/0"; internal := false |}))
  ∧ DeriveHDPubKeyAtIndex 3%N 5 true (store plain_crypto, null_pubkey)
    = (Normal true,
       (store plain_crypto,
        {| nVersion := 1; pubkey := Child (Child account 1) 0x80000005; nChild := 5;
           chainID := 3%N; keypath := "m/0'/1/5'"; internal := true |}))
  ∧ DeriveHDPubKeyAtIndex 2%N 7 true (store plain_crypto, null_pubkey)
    = (Throw "CHDKeyStore::DeriveHDPubKeyAtIndex(): Private Key Derivation failed!",
       (store plain_crypto,
        {| nVersion := 1; pubkey := Blank; nChild := 0;
           chainID := 0%N; keypath := "m/44'/0'/0'/7'"; internal := false |})).
Proof.
  assert (H1 : mapChains (store plain_crypto) !! 1%N = Some chain1) by reflexivity.
  assert (H3 : mapChains (store plain_crypto) !! 3%N = Some chain3) by reflexivity.
  assert (H2 : mapChains (store plain_crypto) !! 2%N = Some chain2) by reflexivity.
  assert (Hn0 : 0 ≤ 0 < 2 ^ 31) by lia.
  assert (Hn5 : 0 ≤ 5 < 2 ^ 31) by lia.
  assert (Hn7 : 0 ≤ 7 < 2 ^ 31) by lia.
  split; [exact H1|]. split; [exact H3|]. split; [exact H2|].
  split; [exact Hn0|]. split; [exact Hn5|]. split; [exact Hn7|].
  split; [|split].
  - destruct (DeriveHDPubKeyAtIndex_modes 1%N chain1 0 false (store plain_crypto)
                null_pubkey H1 Hn0) as [_ Hpublic].
    exact (proj1 (Hpublic eq_refl) (Child (Child account 0) 0) eq_refl).
  - destruct (DeriveHDPubKeyAtIndex_modes 3%N chain3 5 true (store plain_crypto)
                null_pubkey H3 Hn5) as [Hprivate _].
    exact (proj1 (Hprivate eq_refl) (Child (Child account 1) 0x80000005) eq_refl).
  - destruct (DeriveHDPubKeyAtIndex_modes 2%N chain2 7 true (store plain_crypto)
                null_pubkey H2 Hn7) as [Hprivate _].
    exact (proj2 (Hprivate eq_refl) eq_refl).
Defined.

(** Against C1 as it is worded: chain 2 is registered and the index is
    below 2^31, yet the call for the internal side throws (the vault has
    no seed for the chain), and the record it leaves behind carries
    neither the chain nor the index nor the side. *)
Lemma DeriveHDPubKeyAtIndex_registered_yet_throws :
  mapChains (store plain_crypto) !! 2%N = Some chain2
  ∧ 0 ≤ 7 < 2 ^ 31
  ∧ (DeriveHDPubKeyAtIndex 2%N 7 true (store plain_crypto, null_pubkey)).1
    = Throw "CHDKeyStore::DeriveHDPubKeyAtIndex(): Private Key Derivation failed!"
  ∧ chainID (DeriveHDPubKeyAtIndex 2%N 7 true (store plain_crypto, null_pubkey)).2.2
    ≠ 2%N
  ∧ nChild (DeriveHDPubKeyAtIndex 2%N 7 true (store plain_crypto, null_pubkey)).2.2 ≠ 7
  ∧ internal (DeriveHDPubKeyAtIndex 2%N 7 true (store plain_crypto, null_pubkey)).2.2
    ≠ true.
Proof.
  split; [reflexivity|]. split; [lia|]. split; [vm_compute; reflexivity|].
  split; [|split]; vm_compute; discriminate.
Qed.

Lemma DeriveHDPubKeyAtIndex_index_bound_witness :
  mapChains (store plain_crypto) !! 9%N = None
  ∧ mapChains (store plain_crypto) !! 1%N = Some chain1
  ∧ DeriveHDPubKeyAtIndex 9%N 0x80000000 false (store plain_crypto, null_pubkey)
    = (Normal false, (store plain_crypto, null_pubkey))
  ∧ DeriveHDPubKeyAtIndex 1%N 0x80000000 false (store plain_crypto, null_pubkey)
    = (Throw "CHDKeyStore::DeriveHDPubKeyAtIndex(): No more available keys!",
       (store plain_crypto, null_pubkey))
  ∧ (DeriveHDPubKeyAtIndex 1%N 0x7FFFFFFF false (store plain_crypto, null_pubkey)).1
    = Normal true
  ∧ nChild (DeriveHDPubKeyAtIndex 1%N 0x7FFFFFFF false (store plain_crypto, null_pubkey)).2.2
    = 0x7FFFFFFF.
Proof.
  assert (H9 : mapChains (store plain_crypto) !! 9%N = None) by reflexivity.
  assert (H1 : mapChains (store plain_crypto) !! 1%N = Some chain1) by reflexivity.
  split; [exact H9|]. split; [exact H1|]. split; [|split].
  - apply (DeriveHDPubKeyAtIndex_index_bound 9%N 0x80000000 false). exact H9.
  - destruct (DeriveHDPubKeyAtIndex_index_bound 1%N 0x80000000 false (store plain_crypto)
                null_pubkey) as (_ & Hthrow & _).
    apply (Hthrow chain1 H1). lia.
  - destruct (DeriveHDPubKeyAtIndex_index_bound 1%N 0x7FFFFFFF false (store plain_crypto)
                null_pubkey) as (_ & _ & Hlast).
    destruct (Hlast chain1 H1 eq_refl) as [Hpublic _].
    apply Hpublic; [reflexivity|]. eexists. reflexivity.
Defined.

(** Against C3 as the spec has it: with a chain that is not registered
    the index 2^31 is not reported, the call returns [false]; with a
    registered chain the index is reported by an exception, not by the
    value returned. *)
Lemma DeriveHDPubKeyAtIndex_unknown_chain_first :
  mapChains (store plain_crypto) !! 9%N = None
  ∧ (DeriveHDPubKeyAtIndex 9%N 0x80000000 false (store plain_crypto, null_pubkey)).1
    = Normal false
  ∧ (DeriveHDPubKeyAtIndex 1%N 0x80000000 false (store plain_crypto, null_pubkey)).1
    = Throw "CHDKeyStore::DeriveHDPubKeyAtIndex(): No more available keys!".
Proof. repeat split; vm_compute; reflexivity. Qed.

Lemma DeriveHDPubKeyAtIndex_frame_witness :
  mapChains (store plain_crypto) !! 9%N = None
  ∧ (DeriveHDPubKeyAtIndex 3%N 5 true (store plain_crypto, null_pubkey)).2.1
    = store plain_crypto
  ∧ DeriveHDPubKeyAtIndex 9%N 5 false (store plain_crypto, null_pubkey)
    = (Normal false, (store plain_crypto, null_pubkey))
  ∧ (LoadHDPubKey (record_at 5) (store plain_crypto)).1 = Normal true
  ∧ mapHDPubKeys (LoadHDPubKey (record_at 5) (store plain_crypto)).2
      !! CPubKey_GetID (pubkey (record_at 5))
    = Some (record_at 5).
Proof.
  assert (H9 : mapChains (store plain_crypto) !! 9%N = None) by reflexivity.
  split; [exact H9|].
  split; [apply (DeriveHDPubKeyAtIndex_frame 3%N 5 true)|].
  split; [apply (DeriveHDPubKeyAtIndex_frame 9%N 5 false); exact H9|].
  destruct (DeriveHDPubKeyAtIndex_frame 9%N 5 false (store plain_crypto) null_pubkey)
    as (_ & _ & Hload).
  rewrite (Hload (record_at 5)). split; [reflexivity|].
  cbn [snd mapHDPubKeys set_mapHDPubKeys]. apply lookup_insert_eq.
Defined.

(** ** The further properties at work *)

Lemma AddChain_GetChain_witness :
  2%N ≠ chain_chainID chain1
  ∧ (AddChain chain1 (empty_store plain_crypto)).1 = Normal true
  ∧ (GetChain 1%N (AddChain chain1 (empty_store plain_crypto)).2).1 = Normal (Some chain1)
  ∧ (GetChain 2%N (AddChain chain1 (empty_store plain_crypto)).2).1
    = (GetChain 2%N (empty_store plain_crypto)).1.
Proof.
  assert (Hne : 2%N ≠ chain_chainID chain1) by discriminate.
  destruct (AddChain_GetChain chain1 (empty_store plain_crypto)) as (Hret & Hget & Hother & _).
  split; [exact Hne|]. split; [exact Hret|]. split.
  - change 1%N with (chain_chainID chain1). rewrite Hget. reflexivity.
  - exact (Hother 2%N Hne).
Defined.

Lemma store_keyed_preserved_witness :
  store_keyed (empty_store plain_crypto)
  ∧ store_keyed (AddChain chain1 (empty_store plain_crypto)).2
  ∧ store_keyed (LoadHDPubKey (record_at 0) (empty_store plain_crypto)).2
  ∧ store_keyed (EncryptSeeds (empty_store plain_crypto)).2.
Proof.
  assert (Hk : store_keyed (empty_store plain_crypto)).
  { split; intros id x Hx; cbn in Hx; rewrite lookup_empty in Hx; discriminate. }
  destruct (store_keyed_preserved (empty_store plain_crypto) Hk)
    as (Hadd & Hload & _ & _ & Henc).
  split; [exact Hk|]. split; [apply Hadd|]. split; [apply Hload|exact Henc].
Defined.

Lemma catalog_before_base_witness :
  mapHDPubKeys (LoadHDPubKey record77 (store plain_crypto)).2 !! 77%N = Some record77
  ∧ mapHDPubKeys (store plain_crypto) !! 77%N = None
  ∧ CPubKey_GetID (pubkey record77) = 77%N
  ∧ HaveKey 77%N (LoadHDPubKey record77 (store plain_crypto)).2
    = (Normal true, (LoadHDPubKey record77 (store plain_crypto)).2)
  ∧ GetPubKey 77%N (LoadHDPubKey record77 (store plain_crypto)).2
    = (Normal (Some (Child Blank 74)), (LoadHDPubKey record77 (store plain_crypto)).2)
  ∧ GetPubKey 77%N (store plain_crypto)
    = (Normal (Some (Decoded [Byte.x4d])), store plain_crypto)
  ∧ GetKey 77%N (store plain_crypto)
    = (Normal (Some (Decoded [Byte.x4d])), store plain_crypto).
Proof.
  assert (Hhit : mapHDPubKeys (LoadHDPubKey record77 (store plain_crypto)).2 !! 77%N
                 = Some record77) by reflexivity.
  assert (Hmiss : mapHDPubKeys (store plain_crypto) !! 77%N = None) by reflexivity.
  split; [exact Hhit|]. split; [exact Hmiss|]. split; [reflexivity|].
  destruct (catalog_before_base 77%N (LoadHDPubKey record77 (store plain_crypto)).2)
    as (Hfound & _ & _).
  destruct (catalog_before_base 77%N (store plain_crypto)) as (_ & Hbase & _).
  destruct (Hfound record77 Hhit) as [Hhave Hpub].
  destruct (Hbase Hmiss) as (_ & Hbpub & Hbkey).
  split; [exact Hhave|]. split; [exact Hpub|]. split; [exact Hbpub|exact Hbkey].
Defined.

Lemma GetKey_rederives_witness :
  mapHDPubKeys (LoadHDPubKey record77 (store plain_crypto)).2 !! 77%N = Some record77
  ∧ mapHDPubKeys (LoadHDPubKey record77_no_seed (store plain_crypto)).2 !! 77%N
    = Some record77_no_seed
  ∧ (GetKey 77%N (LoadHDPubKey record77 (store plain_crypto)).2).1
    = Normal (Some (Child (Child account 0) 74))
  ∧ (GetKey 77%N (LoadHDPubKey record77_no_seed (store plain_crypto)).2).1 = Normal None
  ∧ CCryptoKeyStore_GetKey (base (store plain_crypto)) 77%N = Some (Decoded [Byte.x4d]).
Proof.
  assert (H1 : mapHDPubKeys (LoadHDPubKey record77 (store plain_crypto)).2 !! 77%N
               = Some record77) by reflexivity.
  assert (H2 : mapHDPubKeys (LoadHDPubKey record77_no_seed (store plain_crypto)).2 !! 77%N
               = Some record77_no_seed) by reflexivity.
  split; [exact H1|]. split; [exact H2|]. split; [|split; [|reflexivity]].
  - destruct (GetKey_rederives 77%N record77 _ H1) as (_ & Hok & _).
    apply Hok. vm_compute. reflexivity.
  - destruct (GetKey_rederives 77%N record77_no_seed _ H2) as (_ & _ & Hfail & _).
    apply Hfail. vm_compute. reflexivity.
Defined.

Lemma Derive_Load_GetKey_witness :
  mapChains (store plain_crypto) !! 3%N = Some chain3
  ∧ derives_privately chain3 true = true
  ∧ (DeriveHDPubKeyAtIndex 3%N 5 true (store plain_crypto, null_pubkey)).1 = Normal true
  ∧ ∃ extKey,
      pubkey (DeriveHDPubKeyAtIndex 3%N 5 true (store plain_crypto, null_pubkey)).2.2
      = CExtPubKey_pubkey (CExtKey_Neuter extKey)
      ∧ (GetKey (CPubKey_GetID
                   (pubkey (DeriveHDPubKeyAtIndex 3%N 5 true
                              (store plain_crypto, null_pubkey)).2.2))
                (LoadHDPubKey
                   (DeriveHDPubKeyAtIndex 3%N 5 true (store plain_crypto, null_pubkey)).2.2
                   (DeriveHDPubKeyAtIndex 3%N 5 true
                      (store plain_crypto, null_pubkey)).2.1).2).1
        = Normal (Some (CExtKey_key extKey)).
Proof.
  assert (H3 : mapChains (store plain_crypto) !! 3%N = Some chain3) by reflexivity.
  assert (Hmode : derives_privately chain3 true = true) by reflexivity.
  assert (Hok : (DeriveHDPubKeyAtIndex 3%N 5 true (store plain_crypto, null_pubkey)).1
                = Normal true) by (vm_compute; reflexivity).
  split; [exact H3|]. split; [exact Hmode|]. split; [exact Hok|].
  apply (Derive_Load_GetKey 3%N chain3 5 true (store plain_crypto) null_pubkey
           _ _ H3 Hmode).
  rewrite <- Hok.
  destruct (DeriveHDPubKeyAtIndex 3%N 5 true (store plain_crypto, null_pubkey))
    as [e [st1 record]].
  reflexivity.
Defined.

Lemma GetAvailableChainIDs_lists_witness :
  IsCrypted (base (store plain_crypto)) = false
  ∧ IsCrypted (base (store unlocked_crypto)) = true
  ∧ (GetAvailableChainIDs (store plain_crypto)).1 = Normal [1%N; 3%N]
  ∧ (GetAvailableChainIDs (store unlocked_crypto)).1 = Normal [1%N; 3%N]
  ∧ ∃ chainIDs,
      GetAvailableChainIDs (store plain_crypto) = (Normal chainIDs, store plain_crypto)
      ∧ (1%N ∈ chainIDs
         ↔ ∃ seed, (GetMasterSeed 1%N (store plain_crypto)).1 = Normal (Some seed)).
Proof.
  assert (Hp : IsCrypted (base (store plain_crypto)) = false) by reflexivity.
  split; [exact Hp|]. split; [reflexivity|].
  split; [vm_compute; reflexivity|]. split; [vm_compute; reflexivity|].
  destruct (GetAvailableChainIDs_lists (store plain_crypto))
    as (chainIDs & Hrun & _ & _ & Hplain & _).
  exists chainIDs. split; [exact Hrun|]. exact (Hplain Hp 1%N).
Defined.

Lemma AddMasterSeed_outcome_witness :
  IsCrypted (base (empty_store unlocked_crypto)) = true
  ∧ EncryptSeed (base (empty_store unlocked_crypto)) seed16 1%N = Some (Byte.x2a :: seed16)
  ∧ (AddMasterSeed 1%N seed16 (empty_store locked_crypto)).1 = Normal false
  ∧ (AddMasterSeed 1%N seed16 (empty_store locked_crypto)).2 = empty_store locked_crypto
  ∧ (AddMasterSeed 1%N seed16 (empty_store unlocked_crypto)).1 = Normal true
  ∧ (GetMasterSeed 1%N (AddMasterSeed 1%N seed16 (empty_store unlocked_crypto)).2).1
    = Normal (Some seed16).
Proof.
  assert (Hc : IsCrypted (base (empty_store unlocked_crypto)) = true) by reflexivity.
  assert (Hw : EncryptSeed (base (empty_store unlocked_crypto)) seed16 1%N
               = Some (Byte.x2a :: seed16)) by reflexivity.
  assert (Hf : (AddMasterSeed 1%N seed16 (empty_store locked_crypto)).1 = Normal false)
    by reflexivity.
  split; [exact Hc|]. split; [exact Hw|]. split; [exact Hf|].
  destruct (AddMasterSeed_outcome 1%N seed16 (empty_store locked_crypto))
    as (_ & Hfalse & _).
  destruct (Hfalse Hf) as (_ & _ & Hsame).
  destruct (AddMasterSeed_outcome 1%N seed16 (empty_store unlocked_crypto))
    as (_ & _ & _ & Hround).
  destruct (Hround Hc _ Hw) as (Htrue & _ & Hget).
  split; [exact Hsame|]. split; [exact Htrue|]. exact Hget.
Defined.

Lemma AddCryptedMasterSeed_GetCryptedMasterSeed_witness :
  IsCrypted (base (empty_store unlocked_crypto)) = true
  ∧ IsCrypted (base (store plain_crypto)) = false
  ∧ (GetCryptedMasterSeed 1%N
       (AddCryptedMasterSeed 1%N (Byte.x2a :: seed16) (empty_store unlocked_crypto)).2).1
    = Normal (Some (Byte.x2a :: seed16))
  ∧ (GetMasterSeed 1%N
       (AddCryptedMasterSeed 1%N (Byte.x2a :: seed16) (empty_store unlocked_crypto)).2).1
    = Normal (Some seed16)
  ∧ (GetCryptedMasterSeed 1%N
       (AddCryptedMasterSeed 1%N (Byte.x2a :: seed16) (store plain_crypto)).2).1
    = Normal None.
Proof.
  assert (Hc : IsCrypted (base (empty_store unlocked_crypto)) = true) by reflexivity.
  assert (Hp : IsCrypted (base (store plain_crypto)) = false) by reflexivity.
  split; [exact Hc|]. split; [exact Hp|].
  destruct (AddCryptedMasterSeed_GetCryptedMasterSeed 1%N (Byte.x2a :: seed16)
              (empty_store unlocked_crypto)) as (_ & Hcrypted & _).
  destruct (AddCryptedMasterSeed_GetCryptedMasterSeed 1%N (Byte.x2a :: seed16)
              (store plain_crypto)) as (_ & _ & Hplain).
  destruct (Hcrypted Hc) as (Hblob & Hseed & _).
  split; [exact Hblob|]. split; [exact Hseed|]. exact (proj1 (Hplain Hp 1%N)).
Defined.

Lemma EncryptSeeds_exact_witness :
  (∀ chain seed, mapHDMasterSeeds store_to_encrypt !! chain = Some seed →
                 is_Some (EncryptSeed (base store_to_encrypt) seed chain))
  ∧ (EncryptSeeds store_to_encrypt).1 = Normal true
  ∧ mapHDMasterSeeds (EncryptSeeds store_to_encrypt).2 = ∅
  ∧ mapHDCryptedMasterSeeds (EncryptSeeds store_to_encrypt).2 !! 1%N
    = Some (Byte.x2a :: seed16)
  ∧ (EncryptSeeds store_half_wrappable).1 = Normal false.
Proof.
  destruct (EncryptSeeds_exact store_to_encrypt) as (Hiff & _ & _ & _ & _ & Hafter).
  assert (Htrue : (EncryptSeeds store_to_encrypt).1 = Normal true)
    by (vm_compute; reflexivity).
  split; [exact (proj1 Hiff Htrue)|]. split; [exact Htrue|].
  destruct (Hafter Htrue) as [Hempty Hblobs].
  split; [exact Hempty|]. split; [rewrite Hblobs; reflexivity|].
  vm_compute. reflexivity.
Defined.

Lemma EncryptSeeds_again_witness :
  (EncryptSeeds store_to_encrypt).1 = Normal true
  ∧ (EncryptSeeds (with_base locked_crypto (store plain_crypto))).1 = Normal false
  ∧ (EncryptSeeds (with_base unlocked_crypto
                     (with_base locked_crypto (store plain_crypto)))).1 = Normal true
  ∧ EncryptSeeds (with_base unlocked_crypto
                    (EncryptSeeds (with_base locked_crypto (store plain_crypto))).2)
    = EncryptSeeds (with_base unlocked_crypto
                      (with_base locked_crypto (store plain_crypto)))
  ∧ EncryptSeeds (EncryptSeeds store_to_encrypt).2
    = (Normal true, (EncryptSeeds store_to_encrypt).2).
Proof.
  assert (H1 : (EncryptSeeds store_to_encrypt).1 = Normal true)
    by (vm_compute; reflexivity).
  assert (H2 : (EncryptSeeds (with_base locked_crypto (store plain_crypto))).1
               = Normal false) by (vm_compute; reflexivity).
  assert (H3 : (EncryptSeeds (with_base unlocked_crypto
                                (with_base locked_crypto (store plain_crypto)))).1
               = Normal true) by (vm_compute; reflexivity).
  split; [exact H1|]. split; [exact H2|]. split; [exact H3|].
  split.
  - exact (proj1 (EncryptSeeds_again _) unlocked_crypto H2 H3).
  - exact (proj2 (EncryptSeeds_again _) H1).
Defined.

Lemma EncryptSeeds_transparent_witness :
  IsCrypted (base (store plain_crypto)) = false
  ∧ mapHDCryptedMasterSeeds (store plain_crypto) = ∅
  ∧ IsCrypted unlocked_crypto = true
  ∧ (EncryptSeeds (with_base unlocked_crypto (store plain_crypto))).1 = Normal true
  ∧ (PrivKeyDer "m/0'/0/5" 1%N
       (EncryptSeeds (with_base unlocked_crypto (store plain_crypto))).2).1
    = (PrivKeyDer "m/0'/0/5" 1%N (store plain_crypto)).1
  ∧ (GetMasterSeed 1%N
       (with_base locked_crypto
          (EncryptSeeds (with_base unlocked_crypto (store plain_crypto))).2)).1
    = Normal None.
Proof.
  assert (Hp : IsCrypted (base (store plain_crypto)) = false) by reflexivity.
  assert (He : mapHDCryptedMasterSeeds (store plain_crypto) = ∅) by reflexivity.
  assert (Hc : IsCrypted unlocked_crypto = true) by reflexivity.
  assert (Ht : (EncryptSeeds (with_base unlocked_crypto (store plain_crypto))).1
               = Normal true) by (vm_compute; reflexivity).
  split; [exact Hp|]. split; [exact He|]. split; [exact Hc|]. split; [exact Ht|].
  destruct (EncryptSeeds_transparent (store plain_crypto) unlocked_crypto Hp He Hc
              (demo_roundtrip _) Ht) as (_ & _ & Hder & Hlocked).
  split; [apply Hder|].
  apply Hlocked; [reflexivity|]. intros blob id. reflexivity.
Defined.

Lemma PrivKeyDer_folds_witness :
  Forall2 (fun fragment index => segment_index fragment = Some index)
          ["0'"; "1"; "5'"] [0x80000000; 1; 0x80000005]
  ∧ split "/" "m/0'/1/5'" = ["m"; "0'"; "1"; "5'"]
  ∧ (GetMasterSeed 1%N (store plain_crypto)).1 = Normal (Some seed16)
  ∧ PrivKeyDer "m/0'/1/5'" 1%N (store plain_crypto)
    = (Normal (Some (Child (Child (Child master 0x80000000) 1) 0x80000005)),
       store plain_crypto)
  ∧ PrivKeyDer "0'/1/5'" 1%N (store plain_crypto)
    = (Normal (Some Blank), store plain_crypto).
Proof.
  assert (Hall : Forall2 (fun fragment index => segment_index fragment = Some index)
                         ["0'"; "1"; "5'"] [0x80000000; 1; 0x80000005])
    by (repeat constructor).
  assert (Hseed : (GetMasterSeed 1%N (store plain_crypto)).1 = Normal (Some seed16))
    by reflexivity.
  split; [exact Hall|]. split; [reflexivity|]. split; [exact Hseed|].
  destruct (PrivKeyDer_folds _ _ 1%N (store plain_crypto) Hall) as [Hm Hbare].
  split.
  - exact (Hm "m/0'/1/5'" seed16 eq_refl Hseed).
  - exact (Hbare "0'/1/5'" eq_refl).
Defined.

Lemma PrivKeyDer_segment_index_witness :
  back "-1" = Some "1"%char
  ∧ back "-1'" = Some "'"%char
  ∧ ParseInt32 "-1" = Some (-1)
  ∧ - 2 ^ 31 ≤ -1 < 2 ^ 31
  ∧ (PrivKeyDer "m/-1" 1%N (store plain_crypto)).1
    = Normal (Some (Child master 0xFFFFFFFF))
  ∧ (PrivKeyDer "m/-1'" 1%N (store plain_crypto)).1
    = Normal (Some (Child master 0x7FFFFFFF)).
Proof.
  assert (Hr : - 2 ^ 31 ≤ -1 < 2 ^ 31) by lia.
  split; [reflexivity|]. split; [reflexivity|]. split; [reflexivity|].
  split; [exact Hr|].
  destruct (PrivKeyDer_segment_index (H:=demo) "-1" "1"%char (-1) eq_refl eq_refl eq_refl eq_refl Hr)
    as (Hplain & _).
  destruct (PrivKeyDer_segment_index (H:=demo) "-1'" "'"%char (-1) eq_refl eq_refl eq_refl eq_refl Hr)
    as (Hhard & _).
  split.
  - change (PrivKeyDer "m/-1" 1%N (store plain_crypto))
      with (PrivKeyDer_loop ["-1"] 1%N master (store plain_crypto)).
    rewrite Hplain. reflexivity.
  - change (PrivKeyDer "m/-1'" 1%N (store plain_crypto))
      with (PrivKeyDer_loop ["-1'"] 1%N master (store plain_crypto)).
    rewrite Hhard. reflexivity.
Defined.

Lemma DeriveHDPubKeyAtIndex_without_seed_witness :
  mapChains (store plain_crypto) !! 2%N = Some chain2
  ∧ 0 ≤ 7 < 2 ^ 31
  ∧ derives_privately chain2 true = true
  ∧ keypathTemplate chain2 = "m/" ++ "44'/0'/0'"
  ∧ (GetMasterSeed 2%N (store plain_crypto)).1 = Normal None
  ∧ DeriveHDPubKeyAtIndex 2%N 7 true (store plain_crypto, null_pubkey)
    = (Throw "CHDKeyStore::DeriveHDPubKeyAtIndex(): Private Key Derivation failed!",
       (store plain_crypto,
        {| nVersion := 1; pubkey := Blank; nChild := 0; chainID := 0%N;
           keypath := "m/44'/0'/0'/7'"; internal := false |})).
Proof.
  assert (H2 : mapChains (store plain_crypto) !! 2%N = Some chain2) by reflexivity.
  assert (Hn : 0 ≤ 7 < 2 ^ 31) by lia.
  assert (Hmode : derives_privately chain2 true = true) by reflexivity.
  assert (Ht : keypathTemplate chain2 = "m/" ++ "44'/0'/0'") by reflexivity.
  assert (Hs : (GetMasterSeed 2%N (store plain_crypto)).1 = Normal None) by reflexivity.
  split; [exact H2|]. split; [exact Hn|]. split; [exact Hmode|]. split; [exact Ht|].
  split; [exact Hs|].
  exact (DeriveHDPubKeyAtIndex_without_seed 2%N chain2 "44'/0'/0'" 7 true
           (store plain_crypto) null_pubkey H2 Hn Hmode Ht Hs).
Defined.

Lemma DeriveHDPubKeyAtIndex_keypath_witness :
  mapChains (store plain_crypto) !! 2%N = Some chain2
  ∧ mapChains (store plain_crypto) !! 1%N = Some chain1
  ∧ 0 ≤ 7 < 2 ^ 31
  ∧ no_switch (keypathTemplate chain2) = true
  ∧ keypath (DeriveHDPubKeyAtIndex 2%N 7 false (store plain_crypto, null_pubkey)).2.2
    = "m/44'/0'/0'/7"
  ∧ no_switch
      (keypath (DeriveHDPubKeyAtIndex 1%N 7 true (store plain_crypto, null_pubkey)).2.2)
    = true.
Proof.
  assert (H2 : mapChains (store plain_crypto) !! 2%N = Some chain2) by reflexivity.
  assert (H1 : mapChains (store plain_crypto) !! 1%N = Some chain1) by reflexivity.
  assert (Hn : 0 ≤ 7 < 2 ^ 31) by lia.
  assert (Hv : no_switch (keypathTemplate chain2) = true) by reflexivity.
  split; [exact H2|]. split; [exact H1|]. split; [exact Hn|]. split; [exact Hv|].
  split.
  - destruct (DeriveHDPubKeyAtIndex_keypath 2%N chain2 7 false (store plain_crypto)
                null_pubkey H2 Hn) as [_ Hverbatim].
    rewrite (Hverbatim Hv). reflexivity.
  - apply (DeriveHDPubKeyAtIndex_keypath 1%N chain1 7 true (store plain_crypto)
             null_pubkey H1 Hn).
Defined.

Lemma DeriveHDPubKeyAtIndex_public_only_witness :
  CHDChain_IsValid chain1 = true
  ∧ usePubCKD chain1 = true
  ∧ mapChains (store plain_crypto) !! 1%N = Some chain1
  ∧ mapChains (store locked_crypto) !! 1%N = Some chain1
  ∧ (GetMasterSeed 1%N (store locked_crypto)).1 = Normal None
  ∧ (DeriveHDPubKeyAtIndex 1%N 5 false (store locked_crypto, null_pubkey)).1
    = Normal true
  ∧ (DeriveHDPubKeyAtIndex 1%N 5 false (store plain_crypto, null_pubkey)).2.2
    = (DeriveHDPubKeyAtIndex 1%N 5 false (store locked_crypto, null_pubkey)).2.2.
Proof.
  assert (Hv : CHDChain_IsValid chain1 = true) by reflexivity.
  assert (Hu : usePubCKD chain1 = true) by reflexivity.
  assert (Hp : mapChains (store plain_crypto) !! 1%N = Some chain1) by reflexivity.
  assert (Hl : mapChains (store locked_crypto) !! 1%N = Some chain1) by reflexivity.
  split; [exact Hv|]. split; [exact Hu|]. split; [exact Hp|]. split; [exact Hl|].
  split; [reflexivity|].
  destruct (DeriveHDPubKeyAtIndex_public_only 1%N chain1 5 (store locked_crypto)
              (store plain_crypto) null_pubkey Hv Hu Hl Hp) as (_ & Hrec & _ & Hok).
  split.
  - apply (Hok ltac:(lia) (Child (Child account 0) 5)). reflexivity.
  - symmetry. exact Hrec.
Defined.

Lemma GetNextChildIndex_depends_on_witness :
  (∀ i, 0 ≤ i < 2 ^ 31 →
        (index_used (catalog [0; 2]) 1%N false i
         ↔ index_used (LoadHDPubKey internal_record (catalog [0; 2])).2 1%N false i))
  ∧ (∀ i, 0 ≤ i < 2 ^ 31 → ¬ index_used (catalog [0; 2]) 1%N true i)
  ∧ (GetNextChildIndex 1%N false (catalog [0; 2])).1
    = (GetNextChildIndex 1%N false (LoadHDPubKey internal_record (catalog [0; 2])).2).1
  ∧ (GetNextChildIndex 1%N true (catalog [0; 2])).1 = Normal 0.
Proof.
  assert (Hsame : ∀ i, 0 ≤ i < 2 ^ 31 →
            (index_used (catalog [0; 2]) 1%N false i
             ↔ index_used (LoadHDPubKey internal_record (catalog [0; 2])).2 1%N false i)).
  { intros i _. rewrite <- !elem_of_collect_indices.
    replace (collect_indices 1%N false (mapHDPubKeys (catalog [0; 2])))
      with [0; 2] by (vm_compute; reflexivity).
    replace (collect_indices 1%N false
               (mapHDPubKeys (LoadHDPubKey internal_record (catalog [0; 2])).2))
      with [0; 2] by (vm_compute; reflexivity).
    reflexivity. }
  assert (Hnone : ∀ i, 0 ≤ i < 2 ^ 31 → ¬ index_used (catalog [0; 2]) 1%N true i).
  { intros i _. rewrite <- elem_of_collect_indices.
    replace (collect_indices 1%N true (mapHDPubKeys (catalog [0; 2])))
      with (@nil Z) by (vm_compute; reflexivity).
    apply not_elem_of_nil. }
  split; [exact Hsame|]. split; [exact Hnone|]. split.
  - apply (GetNextChildIndex_depends_on 1%N false _ _ Hsame).
  - apply (GetNextChildIndex_depends_on 1%N true (catalog [0; 2]) (catalog [0; 2]));
      [tauto|exact Hnone].
Defined.

Lemma GetNextChildIndex_after_load_witness :
  (GetNextChildIndex 1%N false (catalog [0; 2])).1 = Normal 1
  ∧ ¬ index_used (catalog [0; 2]) 1%N false 1
  ∧ mapHDPubKeys (catalog [0; 2]) !! CPubKey_GetID (pubkey (record_at 1)) = None
  ∧ (∀ i, index_used (LoadHDPubKey (record_at 1) (catalog [0; 2])).2 1%N false i
          ↔ index_used (catalog [0; 2]) 1%N false i ∨ i = 1)
  ∧ (GetNextChildIndex 1%N false (LoadHDPubKey (record_at 1) (catalog [0; 2])).2).1
    = Normal 3.
Proof.
  assert (Hrun : (GetNextChildIndex 1%N false (catalog [0; 2])).1 = Normal 1)
    by (vm_compute; reflexivity).
  assert (Hfree : ¬ index_used (catalog [0; 2]) 1%N false 1).
  { rewrite <- elem_of_collect_indices.
    replace (collect_indices 1%N false (mapHDPubKeys (catalog [0; 2])))
      with [0; 2] by (vm_compute; reflexivity).
    rewrite !elem_of_cons, elem_of_nil. lia. }
  assert (Hfresh : mapHDPubKeys (catalog [0; 2]) !! CPubKey_GetID (pubkey (record_at 1))
                   = None) by reflexivity.
  split; [exact Hrun|]. split; [exact Hfree|]. split; [exact Hfresh|].
  destruct (GetNextChildIndex_after_load 1%N false (catalog [0; 2]) (record_at 1) 1
              Hrun Hfree eq_refl eq_refl eq_refl Hfresh) as [Hused _].
  split; [exact Hused|]. vm_compute. reflexivity.
Defined.

Lemma DeriveHDPubKeyAtIndex_exits_witness :
  mapChains (store plain_crypto) !! 9%N = None
  ∧ (DeriveHDPubKeyAtIndex 9%N 5 false (store plain_crypto, null_pubkey)).1 = Normal false
  ∧ (DeriveHDPubKeyAtIndex 1%N 5 false (store plain_crypto, null_pubkey)).1 = Normal true
  ∧ nChild (DeriveHDPubKeyAtIndex 1%N 5 false (store plain_crypto, null_pubkey)).2.2 = 5.
Proof.
  assert (H9 : mapChains (store plain_crypto) !! 9%N = None) by reflexivity.
  assert (Hok : (DeriveHDPubKeyAtIndex 1%N 5 false (store plain_crypto, null_pubkey)).1
                = Normal true) by (vm_compute; reflexivity).
  split; [exact H9|].
  destruct (DeriveHDPubKeyAtIndex_exits 9%N 5 false (store plain_crypto) null_pubkey)
    as (Hfalse & _ & _).
  destruct (DeriveHDPubKeyAtIndex_exits 1%N 5 false (store plain_crypto) null_pubkey)
    as (_ & _ & Htrue).
  split; [exact (proj2 Hfalse H9)|]. split; [exact Hok|].
  exact (proj1 (proj2 (proj2 (Htrue Hok)))).
Defined.

Lemma DeriveHDPubKeyAtIndex_null_chain_witness :
  0 ≤ 5 < 2 ^ 31
  ∧ derives_privately (CHDChain_SetNull chain3) false = true
  ∧ CHDChain_IsValid (CHDChain_SetNull chain3) = false
  ∧ (DeriveHDPubKeyAtIndex 0%N 5 false
       ((AddChain (CHDChain_SetNull chain3) (store plain_crypto)).2, null_pubkey)).1
    = OutOfBounds.
Proof.
  assert (Hn : 0 ≤ 5 < 2 ^ 31) by lia.
  assert (Hmode : derives_privately (CHDChain_SetNull chain3) false = true) by reflexivity.
  split; [exact Hn|]. split; [exact Hmode|].
  destruct (DeriveHDPubKeyAtIndex_null_chain chain3 5 false (store plain_crypto)
              null_pubkey Hn Hmode) as (Hinvalid & _ & Hout).
  split; [exact Hinvalid|exact Hout].
Defined.
